(** * curseforge_key_extractor.py: a shallow embedding and its properties

    The script fetches a fixed byte range of an installer image over HTTP,
    decompresses it with [zlib.decompress], looks for the marker (the key
    name cfCoreApiKey in double quotes, a colon and an opening double quote)
    in the decompressed bytes and returns the text up to the next double
    quote.  The embedding below follows the script line by
    line: the function [E], the [__main__] block, and the library calls they
    make ([print], [requests.get], [Response.raise_for_status],
    [zlib.decompress], [bytes.find], slicing and [bytes.decode]). *)

From Stdlib Require Import List ZArith Lia Bool String Ascii.
From Stdlib Require Import Strings.Byte DecimalString.
Import ListNotations.

Local Open Scope Z_scope.

(** ** Python values *)

Module Py.

(** [bytes]: an immutable sequence of octets. *)
Definition bytes := list byte.

(** [str]: a sequence of Unicode code points. *)
Definition str := list Z.

(** The octet as an integer in [0, 255]. *)
Definition byte_val (b : byte) : Z := Z.of_N (Byte.to_N b).

(** [len(x)] *)
Definition len {A : Type} (x : list A) : Z := Z.of_nat (List.length x).

(** An ASCII literal of the source as a [str]. *)
Definition lit (s : string) : str :=
  List.map (fun a => Z.of_N (N_of_ascii a)) (list_ascii_of_string s).

(** An ASCII [bytes] literal of the source. *)
Definition blit (s : string) : bytes := list_byte_of_string s.

(** The double quote, as a byte and as a code point. *)
Definition dquote : byte := x22.
Definition dquote_char : Z := 34.

(** [str(n)] for an [int], as an f-string renders it. *)
Definition str_of_int (n : Z) : str :=
  lit (NilZero.string_of_int (Z.to_int n)).

(** *** Slicing and searching *)

(** Index adjustment shared by slices and by the [start] argument of
    [find]: a negative index counts from the end, and the result is clipped
    to [0, len]. *)
Definition adjust_index (n i : Z) : Z :=
  if i <? 0 then Z.max 0 (i + n) else Z.min i n.

(** [s[lo:hi]] *)
Definition slice {A : Type} (s : list A) (lo hi : Z) : list A :=
  let n := len s in
  let lo' := adjust_index n lo in
  let hi' := adjust_index n hi in
  firstn (Z.to_nat (hi' - lo')) (skipn (Z.to_nat lo') s).

(** [s.startswith(sub)] *)
Fixpoint starts_with (s sub : bytes) {struct sub} : bool :=
  match sub with
  | [] => true
  | c :: sub' =>
    match s with
    | [] => false
    | d :: s' => Byte.eqb c d && starts_with s' sub'
    end
  end.

(** The lowest offset at which [sub] occurs in [s], counted from [i];
    -1 when it does not occur. *)
Fixpoint find_at (s sub : bytes) (i : Z) : Z :=
  if starts_with s sub then i
  else match s with
       | [] => -1
       | _ :: s' => find_at s' sub (i + 1)
       end.

(** [s.find(sub, start)]: the lowest index [i >= start] with
    [s[i:i+len(sub)] == sub], or -1. *)
Definition find (s sub : bytes) (start : Z) : Z :=
  let n := len s in
  let st := if start <? 0 then Z.max 0 (start + n) else start in
  if n - st <? len sub then -1
  else find_at (skipn (Z.to_nat st) s) sub st.

(** *** Exceptions

    The classes the script's [except] clauses tell apart.  [HTTPError] is
    what [raise_for_status] raises and, like every exception of [requests],
    a subclass of [RequestException]; [OtherException] stands for any other
    subclass of [Exception].  Every class here derives from [Exception]:
    what does not ([KeyboardInterrupt], [SystemExit]) passes both [except]
    clauses of the script and is not modelled, so nothing below speaks of a
    run that is interrupted. *)
Inductive exc_class :=
| RequestException
| HTTPError
| zlib_error
| UnicodeDecodeError
| UnicodeEncodeError
| OtherException.

Record exc := mk_exc { exc_type : exc_class; exc_str : str }.

(** What an [except] clause names. *)
Inductive except_clause :=
| except_RequestException
| except_zlib_error
| except_Exception.

(** [isinstance(e, cls)] for the clause's class. *)
Definition matches (c : except_clause) (e : exc) : bool :=
  match c, exc_type e with
  | except_Exception, _ => true
  | except_RequestException, (RequestException | HTTPError) => true
  | except_zlib_error, zlib_error => true
  | _, _ => false
  end.

(** *** Strict UTF-8 decoding

    [bytes.decode('utf-8')] with the default error handler: the well-formed
    byte sequences of the Unicode standard and nothing else (no overlong
    forms, no surrogates, nothing above U+10FFFF).  A failure is the
    [UnicodeDecodeError] CPython raises, with the start and end of the
    offending bytes and the reason, found in the order of CPython's
    decoder. *)

Definition is_cont (c : Z) : bool := (128 <=? c) && (c <=? 191).

Definition cont_bits (c : Z) : Z := Z.land c 63.

(** start, end and reason of a [UnicodeDecodeError] *)
Definition decode_error : Type := Z * Z * string.

Definition emit (c : Z) (r : decode_error + str) : decode_error + str :=
  match r with
  | inl e => inl e
  | inr t => inr (c :: t)
  end.

Definition unexpected_end (pos n : Z) : decode_error + str :=
  inl (pos, pos + n, "unexpected end of data"%string).

Definition invalid_cont (pos n : Z) : decode_error + str :=
  inl (pos, pos + n, "invalid continuation byte"%string).

(** The second byte of a three- or four-byte form is checked against the
    lead byte too: [lo] and [hi] are the lead bytes whose second byte must
    not be below, respectively not below, [bound]. *)
Definition bad_second (c0 c1 lo hi bound : Z) : bool :=
  negb (is_cont c1) || (if c1 <? bound then c0 =? lo else c0 =? hi).

Fixpoint utf8_decode (s : bytes) (pos : Z) : decode_error + str :=
  match s with
  | [] => inr []
  | b0 :: s1 =>
    let c0 := byte_val b0 in
    if c0 <? 128 then emit c0 (utf8_decode s1 (pos + 1))
    else if c0 <? 194 then inl (pos, pos + 1, "invalid start byte"%string)
    else if c0 <? 224 then
      match s1 with
      | [] => unexpected_end pos 1
      | b1 :: s2 =>
        let c1 := byte_val b1 in
        if negb (is_cont c1) then invalid_cont pos 1
        else emit (Z.lor (Z.shiftl (Z.land c0 31) 6) (cont_bits c1))
                  (utf8_decode s2 (pos + 2))
      end
    else if c0 <? 240 then
      match s1 with
      | [] => unexpected_end pos 1
      | b1 :: s2 =>
        let c1 := byte_val b1 in
        if bad_second c0 c1 224 237 160 then invalid_cont pos 1
        else
          match s2 with
          | [] => unexpected_end pos 2
          | b2 :: s3 =>
            let c2 := byte_val b2 in
            if negb (is_cont c2) then invalid_cont pos 2
            else emit (Z.lor (Z.shiftl (Z.land c0 15) 12)
                         (Z.lor (Z.shiftl (cont_bits c1) 6) (cont_bits c2)))
                      (utf8_decode s3 (pos + 3))
          end
      end
    else if c0 <? 245 then
      match s1 with
      | [] => unexpected_end pos 1
      | b1 :: s2 =>
        let c1 := byte_val b1 in
        if bad_second c0 c1 240 244 144 then invalid_cont pos 1
        else
          match s2 with
          | [] => unexpected_end pos 2
          | b2 :: s3 =>
            let c2 := byte_val b2 in
            if negb (is_cont c2) then invalid_cont pos 2
            else
              match s3 with
              | [] => unexpected_end pos 3
              | b3 :: s4 =>
                let c3 := byte_val b3 in
                if negb (is_cont c3) then invalid_cont pos 3
                else emit (Z.lor (Z.shiftl (Z.land c0 7) 18)
                             (Z.lor (Z.shiftl (cont_bits c1) 12)
                                (Z.lor (Z.shiftl (cont_bits c2) 6)
                                   (cont_bits c3))))
                          (utf8_decode s4 (pos + 4))
              end
          end
      end
    else inl (pos, pos + 1, "invalid start byte"%string)
  end.

Definition hex_digit (d : Z) : Z :=
  nth (Z.to_nat d) (lit "0123456789abcdef") 48.

(** [str(e)] of the [UnicodeDecodeError] for the bytes [s]. *)
Definition decode_error_text (s : bytes) (e : decode_error) : str :=
  let '(st, en, reason) := e in
  if en - st =? 1 then
    let c := byte_val (nth (Z.to_nat st) s x00) in
    lit "'utf-8' codec can't decode byte 0x"
    ++ [hex_digit (c / 16); hex_digit (c mod 16)]
    ++ lit " in position " ++ str_of_int st ++ lit ": " ++ lit reason
  else
    lit "'utf-8' codec can't decode bytes in position "
    ++ str_of_int st ++ lit "-" ++ str_of_int (en - 1)
    ++ lit ": " ++ lit reason.

(** [s.decode('utf-8')]: the text, or the [UnicodeDecodeError] raised. *)
Definition decode (s : bytes) : exc + str :=
  match utf8_decode s 0 with
  | inl e => inl (mk_exc UnicodeDecodeError (decode_error_text s e))
  | inr t => inr t
  end.


End Py.

(** ** zlib.decompress

    [zlib.decompress(data)] with its default [wbits=15] reads a zlib stream
    (RFC 1950): a two-byte header, deflate blocks (RFC 1951) and the
    big-endian Adler-32 of the output.  The model follows zlib's [inflate]
    state by state (HEAD, TYPE, STORED, TABLE, LENLENS, CODELENS, LEN, DIST,
    MATCH, CHECK) and reports a failure the way CPython words the
    [zlib.error] it raises.  Bytes after the end of the stream are ignored,
    as the one-shot function does. *)

Module Zlib.

Import Py.

Inductive failure :=
| Truncated                 (* Z_BUF_ERROR: the input ends inside the stream *)
| Invalid (msg : string)    (* Z_DATA_ERROR with zlib's message *)
| NeedDict                  (* Z_NEED_DICT: the header asks for a preset dictionary *)
| OutOfFuel.                (* the model's recursion bound; never reached, see [inflate_fuel_enough] *)

(** *** The bit reader: bits are taken from each byte starting at its least
    significant bit. *)

Record reader := mk_reader { cur : list bool; rest : bytes }.

Definition R (A : Type) : Type := reader -> failure + (A * reader).

Definition ret {A} (a : A) : R A := fun r => inr (a, r).

Definition fail {A} (f : failure) : R A := fun _ => inl f.

Definition bind {A B} (m : R A) (k : A -> R B) : R B :=
  fun r => match m r with
           | inl f => inl f
           | inr (a, r') => k a r'
           end.

Local Notation "x <- m ;; k" := (bind m (fun x => k))
  (at level 61, m at next level, right associativity).
Local Notation "' p <- m ;; k" := (bind m (fun x => let p := x in k))
  (at level 61, p pattern, m at next level, right associativity).

Definition byte_bits (b : byte) : list bool :=
  let '(b0, (b1, (b2, (b3, (b4, (b5, (b6, b7))))))) := Byte.to_bits b in
  [b0; b1; b2; b3; b4; b5; b6; b7].

Definition read_bit : R Z :=
  fun r =>
    match cur r with
    | b :: c => inr (Z.b2z b, mk_reader c (rest r))
    | [] =>
      match rest r with
      | [] => inl Truncated
      | x :: xs =>
        match byte_bits x with
        | b :: c => inr (Z.b2z b, mk_reader c xs)
        | [] => inl Truncated
        end
      end
    end.

(** [n] bits as an integer, first bit least significant. *)
Fixpoint read_bits (n : nat) : R Z :=
  match n with
  | O => ret 0
  | S n' => b <- read_bit ;; v <- read_bits n' ;; ret (b + 2 * v)
  end.

(** BYTEBITS: drop what is left of the current byte. *)
Definition align : R unit := fun r => inr (tt, mk_reader [] (rest r)).

(** [n] whole bytes (the reader is aligned). *)
Definition read_bytes (n : nat) : R bytes :=
  fun r =>
    if (Z.of_nat n <=? len (rest r))
    then inr (firstn n (rest r), mk_reader [] (skipn n (rest r)))
    else inl Truncated.

(** *** Huffman codes (zlib's [inflate_table]) *)

Definition MAXBITS : nat := 15.

(** [count[l]] for [l] = 1..15, and the symbols ordered by code length and
    then by value: the canonical code of RFC 1951, 3.2.2. *)
Record huffman := mk_huffman { count : list Z; symbol : list Z }.

Definition count_len (lens : list Z) (l : Z) : Z :=
  len (filter (Z.eqb l) lens).

Fixpoint symbols_of_len (lens : list Z) (sym l : Z) : list Z :=
  match lens with
  | [] => []
  | x :: lens' =>
    if x =? l then sym :: symbols_of_len lens' (sym + 1) l
    else symbols_of_len lens' (sym + 1) l
  end.

Definition lengths_1_15 : list Z := List.map Z.of_nat (seq 1 MAXBITS).

Definition build (lens : list Z) : huffman :=
  mk_huffman (List.map (count_len lens) lengths_1_15)
             (flat_map (symbols_of_len lens 0) lengths_1_15).

(** The code space left after the lengths seen so far; negative when the
    set is over-subscribed. *)
Fixpoint space_left (counts : list Z) (left : Z) : Z :=
  match counts with
  | [] => left
  | c :: counts' =>
    let left' := 2 * left - c in
    if left' <? 0 then left' else space_left counts' left'
  end.

(** The longest code length in use (0 when there is no code at all). *)
Definition max_len (lens : list Z) : Z := fold_right Z.max 0 lens.

Inductive table_kind := CODES | LENS | DISTS.

(** Whether [inflate_table] accepts the lengths: an empty set is accepted
    (decoding reports the error), an over-subscribed set is not, and an
    incomplete set only as a single one-bit code of a literal/length or
    distance table. *)
Definition table_ok (kind : table_kind) (lens : list Z) : bool :=
  let h := build lens in
  let left := space_left (count h) 1 in
  if max_len lens =? 0 then true
  else if left <? 0 then false
  else if (0 <? left)
          && (match kind with CODES => true | _ => negb (max_len lens =? 1) end)
  then false
  else true.

(** One symbol, bit by bit, most significant bit of the code first.
    [None] is zlib's invalid-code marker: the bits read so far belong to no
    code. *)
Fixpoint decode_from (symbols counts : list Z) (code first index : Z)
  : R (option Z) :=
  match counts with
  | [] => ret None
  | c :: counts' =>
    b <- read_bit ;;
    let code := code + b in
    if code - c <? first
    then ret (nth_error symbols (Z.to_nat (index + (code - first))))
    else if forallb (Z.eqb 0) counts' then ret None
    else decode_from symbols counts' (2 * code) (2 * (first + c)) (index + c)
  end.

Definition decode (h : huffman) : R (option Z) :=
  decode_from (symbol h) (count h) 0 0 0.

(** *** Tables of RFC 1951, 3.2.5 and 3.2.7 *)

Definition length_base : list Z :=
  [3; 4; 5; 6; 7; 8; 9; 10; 11; 13; 15; 17; 19; 23; 27; 31; 35; 43; 51; 59;
   67; 83; 99; 115; 131; 163; 195; 227; 258].

Definition length_extra : list nat :=
  [0; 0; 0; 0; 0; 0; 0; 0; 1; 1; 1; 1; 2; 2; 2; 2; 3; 3; 3; 3; 4; 4; 4; 4;
   5; 5; 5; 5; 0]%nat.

Definition dist_base : list Z :=
  [1; 2; 3; 4; 5; 7; 9; 13; 17; 25; 33; 49; 65; 97; 129; 193; 257; 385; 513;
   769; 1025; 1537; 2049; 3073; 4097; 6145; 8193; 12289; 16385; 24577].

Definition dist_extra : list nat :=
  [0; 0; 0; 0; 1; 1; 2; 2; 3; 3; 4; 4; 5; 5; 6; 6; 7; 7; 8; 8; 9; 9; 10; 10;
   11; 11; 12; 12; 13; 13]%nat.

(** The order in which the code length code lengths are stored. *)
Definition order : list nat :=
  [16; 17; 18; 0; 8; 7; 9; 6; 10; 5; 11; 4; 12; 3; 13; 2; 14; 1; 15]%nat.

(** The fixed codes of block type 1. *)
Definition fixed_lens : list Z :=
  repeat 8 144 ++ repeat 9 112 ++ repeat 7 24 ++ repeat 8 8.

Definition fixed_dists : list Z := repeat 5 32.

Definition byte_of_Z (z : Z) : byte :=
  match Byte.of_N (Z.to_N z) with
  | Some b => b
  | None => x00
  end.

(** *** Deflate blocks

    The output is carried most recent byte first, so that the byte at
    distance [d] is the element of index [d - 1]. *)

(** MATCH: copy [n] bytes from [dist] back, one at a time (the source and
    the destination may overlap). *)
Fixpoint copy_match (n dist : nat) (out : bytes) : bytes :=
  match n with
  | O => out
  | S n' => copy_match n' dist (nth (dist - 1) out x00 :: out)
  end.

(** LEN, LENEXT, DIST, DISTEXT, MATCH, LIT: the symbols of one block up to
    its end-of-block symbol. *)
Fixpoint inflate_codes (fuel : nat) (lencode distcode : huffman)
         (out : bytes) : R bytes :=
  match fuel with
  | O => fail OutOfFuel
  | S fuel' =>
    o <- decode lencode ;;
    match o with
    | None => fail (Invalid "invalid literal/length code")
    | Some sym =>
      if sym <? 256 then
        inflate_codes fuel' lencode distcode (byte_of_Z sym :: out)
      else if sym =? 256 then ret out
      else if 285 <? sym then fail (Invalid "invalid literal/length code")
      else
        let i := Z.to_nat (sym - 257) in
        e <- read_bits (nth i length_extra O) ;;
        let length := nth i length_base 0 + e in
        d <- decode distcode ;;
        match d with
        | None => fail (Invalid "invalid distance code")
        | Some dsym =>
          if 29 <? dsym then fail (Invalid "invalid distance code")
          else
            let j := Z.to_nat dsym in
            e' <- read_bits (nth j dist_extra O) ;;
            let dist := nth j dist_base 0 + e' in
            if len out <? dist
            then fail (Invalid "invalid distance too far back")
            else inflate_codes fuel' lencode distcode
                   (copy_match (Z.to_nat length) (Z.to_nat dist) out)
        end
    end
  end.

(** STORED, COPY: LEN and its one's complement NLEN, then LEN bytes. *)
Definition inflate_stored (out : bytes) : R bytes :=
  _ <- align ;;
  n <- read_bits 16 ;;
  nn <- read_bits 16 ;;
  if negb (n =? Z.lxor nn 65535)
  then fail (Invalid "invalid stored block lengths")
  else
    data <- read_bytes (Z.to_nat n) ;;
    ret (rev data ++ out).

(** LENLENS: [ncode] three-bit lengths, stored in the order of [order]; the
    other code length code lengths are zero. *)
Fixpoint read_values (n k : nat) : R (list Z) :=
  match n with
  | O => ret []
  | S n' => v <- read_bits k ;; vs <- read_values n' k ;; ret (v :: vs)
  end.

Fixpoint index_of (x : nat) (l : list nat) : nat :=
  match l with
  | [] => O
  | y :: l' => if Nat.eqb x y then O else S (index_of x l')
  end.

Definition place_lenlens (vs : list Z) : list Z :=
  List.map (fun s => nth (index_of s order) vs 0) (seq 0 19).

(** CODELENS: the literal/length and distance code lengths, run-length
    coded with the symbols 16, 17 and 18.  [acc] holds the lengths read so
    far, last one first. *)
Fixpoint read_codelens (fuel : nat) (h : huffman) (total : Z)
         (acc : list Z) : R (list Z) :=
  if total <=? len acc then ret (rev acc)
  else
    match fuel with
    | O => fail OutOfFuel
    | S fuel' =>
      o <- decode h ;;
      let v := match o with Some v => v | None => 0 end in
      if v <? 16 then read_codelens fuel' h total (v :: acc)
      else
        lc <- (if v =? 16 then
                 c <- read_bits 2 ;;
                 match acc with
                 | [] => fail (Invalid "invalid bit length repeat")
                 | p :: _ => ret (p, 3 + c)
                 end
               else if v =? 17 then c <- read_bits 3 ;; ret (0, 3 + c)
               else c <- read_bits 7 ;; ret (0, 11 + c)) ;;
        let '(l, copy) := lc in
        if total <? len acc + copy
        then fail (Invalid "invalid bit length repeat")
        else read_codelens fuel' h total (repeat l (Z.to_nat copy) ++ acc)
    end.

(** TABLE .. CODELENS: the header of a dynamic block. *)
Definition read_tables : R (huffman * huffman) :=
  hlit <- read_bits 5 ;;
  hdist <- read_bits 5 ;;
  hclen <- read_bits 4 ;;
  let nlen := hlit + 257 in
  let ndist := hdist + 1 in
  let ncode := hclen + 4 in
  if (286 <? nlen) || (30 <? ndist)
  then fail (Invalid "too many length or distance symbols")
  else
    vs <- read_values (Z.to_nat ncode) 3 ;;
    let cl := place_lenlens vs in
    if negb (table_ok CODES cl)
    then fail (Invalid "invalid code lengths set")
    else
      lens <- read_codelens (Z.to_nat (nlen + ndist)) (build cl)
                (nlen + ndist) [] ;;
      if nth 256 lens 0 =? 0
      then fail (Invalid "invalid code -- missing end-of-block")
      else
        let ll := firstn (Z.to_nat nlen) lens in
        let dl := skipn (Z.to_nat nlen) lens in
        if negb (table_ok LENS ll)
        then fail (Invalid "invalid literal/lengths set")
        else if negb (table_ok DISTS dl)
        then fail (Invalid "invalid distances set")
        else ret (build ll, build dl).

(** TYPE: block after block until the one marked last. *)
Fixpoint inflate_blocks (fuel cfuel : nat) (out : bytes) : R bytes :=
  match fuel with
  | O => fail OutOfFuel
  | S fuel' =>
    last <- read_bits 1 ;;
    type <- read_bits 2 ;;
    out' <- (if type =? 0 then inflate_stored out
             else if type =? 1
             then inflate_codes cfuel (build fixed_lens) (build fixed_dists) out
             else if type =? 2
             then t <- read_tables ;; inflate_codes cfuel (fst t) (snd t) out
             else fail (Invalid "invalid block type")) ;;
    if last =? 1 then ret out' else inflate_blocks fuel' cfuel out'
  end.

(** Every block takes at least three bits and every symbol at least one, so
    one more than the number of input bits bounds both loops. *)
Definition inflate_fuel (data : bytes) : nat := S (8 * List.length data).

(** *** The zlib wrapper *)

(** HEAD, DICTID, DICT: CMF and FLG. *)
Definition read_header : R unit :=
  cmf <- read_bits 8 ;;
  flg <- read_bits 8 ;;
  if negb ((cmf * 256 + flg) mod 31 =? 0)
  then fail (Invalid "incorrect header check")
  else if negb (Z.land cmf 15 =? 8)
  then fail (Invalid "unknown compression method")
  else if 15 <? Z.shiftr cmf 4 + 8
  then fail (Invalid "invalid window size")
  else if Z.testbit flg 5
  then _ <- read_bytes 4 ;; fail NeedDict
  else ret tt.

Definition adler32 (data : bytes) : Z :=
  let '(a, b) :=
    fold_left (fun '(a, b) x =>
                 let a' := (a + byte_val x) mod 65521 in
                 (a', (b + a') mod 65521))
              data (1, 0) in
  b * 65536 + a.

Definition be32 (bs : bytes) : Z :=
  fold_left (fun acc x => acc * 256 + byte_val x) bs 0.

Definition inflate_zlib (fuel : nat) : R bytes :=
  _ <- read_header ;;
  out <- inflate_blocks fuel fuel [] ;;
  _ <- align ;;
  chk <- read_bytes 4 ;;
  if be32 chk =? adler32 (rev out) then ret (rev out)
  else fail (Invalid "incorrect data check").

(** The text of the [zlib.error] CPython raises. *)
Definition error_text (f : failure) : str :=
  match f with
  | Truncated =>
    lit "Error -5 while decompressing data: incomplete or truncated stream"
  | Invalid msg => lit "Error -3 while decompressing data: " ++ lit msg
  | NeedDict => lit "Error 2 while decompressing data"
  | OutOfFuel => lit "Error -2 while decompressing data: inconsistent stream state"
  end.

Definition run {A} (m : R A) (data : bytes) : failure + A :=
  match m (mk_reader [] data) with
  | inl f => inl f
  | inr (a, _) => inr a
  end.

(** [zlib.decompress(data)]: the decompressed bytes, or the [zlib.error]
    raised. *)
Definition decompress (data : bytes) : exc + bytes :=
  match run (inflate_zlib (inflate_fuel data)) data with
  | inl f => inl (mk_exc zlib_error (error_text f))
  | inr out => inr out
  end.

(** [zlib.decompress(data, wbits=-15)]: the same blocks without header and
    check value, which is what a raw deflate stream is.  The script does not
    call it; it states what the specification's wording would mean. *)
Definition decompress_raw (data : bytes) : exc + bytes :=
  match run (inflate_blocks (inflate_fuel data) (inflate_fuel data) []) data with
  | inl f => inl (mk_exc zlib_error (error_text f))
  | inr out => inr (rev out)
  end.

(** *** The measure of the recursion bound *)

(** The bits a reader has not read yet. *)
Definition bits_left (r : reader) : nat :=
  (List.length (cur r) + 8 * List.length (rest r))%nat.

(** A step from the reader [r] did not stop for lack of fuel and, when it
    succeeded, did not move the reader backwards. *)
Definition after {T : Type} (r : reader) (res : failure + (T * reader))
  : Prop :=
  match res with
  | inl f => f <> OutOfFuel
  | inr (_, r') => (bits_left r' <= bits_left r)%nat
  end.

End Zlib.

(** ** requests *)

Module Requests.

Import Py.

(** The fields of [requests.Response] the script and [raise_for_status]
    read ([url] is the final address, after redirects). *)
Record Response := mk_Response {
  status_code : Z;
  reason : str;
  url : str;
  content : bytes
}.

(** [Response.raise_for_status()]: an [HTTPError] for a 4xx or a 5xx status
    code, nothing for any other. *)
Definition raise_for_status (r : Response) : option exc :=
  let sc := status_code r in
  if (400 <=? sc) && (sc <? 500)
  then Some (mk_exc HTTPError
               (str_of_int sc ++ lit " Client Error: " ++ reason r
                ++ lit " for url: " ++ url r))
  else if (500 <=? sc) && (sc <? 600)
  then Some (mk_exc HTTPError
               (str_of_int sc ++ lit " Server Error: " ++ reason r
                ++ lit " for url: " ++ url r))
  else None.

(** The network as the script meets it: what [requests.get(url,
    headers=..., timeout=...)] does, a response or an exception (of
    [requests] or not). *)
Definition network : Type := str -> list (str * str) -> Z -> exc + Response.

End Requests.

(** ** Running the script

    A run is the list of the calls it makes, in order, and how the code
    ends: normally, by a [return], or with an exception. *)

Module Run.

Import Py.

Inductive stream := stdout | stderr.

Inductive event :=
| Print (file : stream) (text : str)
| Get (url : str) (headers : list (str * str)) (timeout : Z)
| RaiseForStatus (r : Requests.Response)
| Decompress (data : bytes)
| Find (s sub : bytes) (start : Z)
| Decode (data : bytes)
| Traceback (e : exc).

(** A returned value: [None], or a [str]. *)
Definition value : Type := option str.

Inductive outcome (A : Type) :=
| Normal (a : A)
| Return (v : value)
| Raise (e : exc).

Arguments Normal {A} a.
Arguments Return {A} v.
Arguments Raise {A} e.

Definition prog (A : Type) : Type := list event * outcome A.

Definition ret {A} (a : A) : prog A := ([], Normal a).

Definition bind {A B} (m : prog A) (k : A -> prog B) : prog B :=
  match m with
  | (l, Normal a) => let '(l', o) := k a in (l ++ l', o)
  | (l, Return v) => (l, Return v)
  | (l, Raise e) => (l, Raise e)
  end.

(** [return v] *)
Definition return_ {A} (v : value) : prog A := ([], Return v).

(** A library call: it is logged, and it yields a value or raises. *)
Definition call {A} (ev : event) (r : exc + A) : prog A :=
  ([ev], match r with inl e => Raise e | inr a => Normal a end).

(** The first [except] clause that matches the exception, if any. *)
Fixpoint handler {A} (hs : list (except_clause * (exc -> prog A))) (e : exc)
  : option (prog A) :=
  match hs with
  | [] => None
  | (c, h) :: hs' => if matches c e then Some (h e) else handler hs' e
  end.

(** [try: body  except c1 as C: h1  except c2 as C: h2 ...] *)
Definition try_ {A} (body : prog A)
           (hs : list (except_clause * (exc -> prog A))) : prog A :=
  match body with
  | (l, Raise e) =>
    match handler hs e with
    | Some (l', o) => (l ++ l', o)
    | None => (l, Raise e)
    end
  | _ => body
  end.

(** A call of a function whose body is [body]: falling off the end returns
    [None]. *)
Definition result (body : prog unit) : list event * (exc + value) :=
  match body with
  | (l, Normal _) => (l, inr None)
  | (l, Return v) => (l, inr v)
  | (l, Raise e) => (l, inl e)
  end.

(** Standard output, as far as [print] depends on it: which characters
    its encoding has beyond ASCII (every encoding CPython gives
    [sys.stdout] has the ASCII ones), and the message of the
    [UnicodeEncodeError] it raises for a text it cannot encode.  Its error
    handler is strict; the one of standard error is backslashreplace, so a
    write there never fails. *)
Record terminal := mk_terminal {
  encodes : Z -> bool;
  encode_error : str -> str
}.

(** Whether standard output can encode the text. *)
Definition can_write (out : terminal) (text : str) : bool :=
  forallb (fun c => (c <? 128) || encodes out c) text.

(** [print(text, file=f)]: the line is written and logged, or, on a
    standard output that cannot encode it, nothing is written and the call
    raises [UnicodeEncodeError]. *)
Definition print (out : terminal) (text : str) (file : stream) : prog unit :=
  match file with
  | stderr => call (Print stderr text) (inr tt)
  | stdout =>
    if can_write out text then call (Print stdout text) (inr tt)
    else ([], Raise (mk_exc UnicodeEncodeError (encode_error out text)))
  end.

(** Truth value of [None] or a [str]. *)
Definition truthy (v : value) : bool :=
  match v with
  | None => false
  | Some s => negb (len s =? 0)
  end.

End Run.

(** ** The script *)

Import Py Run.

Notation "x <- m ;; k" := (bind m (fun x => k))
  (at level 61, m at next level, right associativity).
Notation "m ;; k" := (bind m (fun _ => k))
  (at level 61, right associativity).
Notation "'except' c 'as' x => h" := (c, fun x => h)
  (at level 62, c at next level, x name, h at level 61, only parsing).

(** [F=len] and [A=print], on the standard output [out]. *)
Definition F {T : Type} (x : list T) : Z := len x.

Definition A (out : terminal) (text : str) (file : stream) : prog unit :=
  print out text file.

Definition J : str :=
  lit "https://curseforge.overwolf.com/electron/linux/CurseForge-0.198.1-21.AppImage".

Definition D : Z := 82926761.

Definition K : Z := 84196.

(** The bytes literal [G]: a double quote, cfCoreApiKey, a double quote, a
    colon and a double quote. *)
Definition marker : bytes :=
  dquote :: blit "cfCoreApiKey" ++ dquote :: blit ":" ++ [dquote].

Definition E (out : terminal) (net : Requests.network) : prog unit :=
  try_
    (A out (lit "getting curseforge api key from " ++ J ++ lit "...") stdout ;;
     A out (lit "requesting bytes " ++ str_of_int D ++ lit "-"
        ++ str_of_int (D + K) ++ lit "...") stdout ;;
     let S := lit "bytes=" ++ str_of_int D ++ lit "-" ++ str_of_int (D + K) in
     let T := [(lit "Range", S)] in
     L <- call (Get J T 30) (net J T 30) ;;
     call (RaiseForStatus L)
          (match Requests.raise_for_status L with
           | Some e => inl e
           | None => inr tt
           end) ;;
     let M := Requests.content L in
     A out (lit "downloaded " ++ str_of_int (F M) ++ lit " bytes (compressed)")
       stdout ;;
     V <- try_ (call (Decompress M) (Zlib.decompress M))
            [except except_zlib_error as C =>
               A out (lit "decompression error: " ++ exc_str C) stderr ;;
               return_ None] ;;
     A out (lit "decompressed to " ++ str_of_int (F V) ++ lit " bytes") stdout ;;
     let G := marker in
     N <- call (Find V G 0) (inr (find V G 0)) ;;
     (if N =? -1
      then g <- call (Decode G) (decode G) ;;
           A out (lit "couldnt find string " ++ g) stderr ;;
           return_ None
      else ret tt) ;;
     let O := N + F G in
     P <- call (Find V [dquote] O) (inr (find V [dquote] O)) ;;
     (if P =? -1
      then A out (lit "no closing quote") stderr ;; return_ None
      else ret tt) ;;
     Q <- call (Decode (slice V O P)) (decode (slice V O P)) ;;
     A out (lit "api key: " ++ Q) stdout ;;
     return_ (Some Q))
    [except except_RequestException as C =>
       A out (lit "network error: " ++ exc_str C) stderr ;; return_ None;
     except except_Exception as C =>
       A out (lit "error: " ++ exc_str C) stderr ;; return_ None].

(** The [__main__] block: the calls made and the exit status of the
    process.  An exception that left [E] would end the process with a
    traceback and status 1. *)
Definition main (out : terminal) (net : Requests.network)
  : list event * Z :=
  match result (E out net) with
  | (l, inr C) =>
    if truthy C then (l, 0)
    else (l ++ [Print stderr (lit "failed to extract api key")], 1)
  | (l, inl e) => (l ++ [Traceback e], 1)
  end.

(** ** Vocabulary of the properties *)

(** [sub] occurs in [s] at offset [k]. *)
Definition occurs_at (sub s : bytes) (k : nat) : Prop :=
  exists pre post, s = pre ++ sub ++ post /\ List.length pre = k.

Definition contains (sub s : bytes) : Prop := exists k, occurs_at sub s k.

(** The first occurrence of [sub] in [s] is at offset [k]. *)
Definition first_at (sub s : bytes) (k : nat) : Prop :=
  occurs_at sub s k /\ forall j, (j < k)%nat -> ~ occurs_at sub s j.

(** The request every run makes. *)
Definition request_headers : list (str * str) :=
  [(lit "Range", lit "bytes=82926761-83010957")].

(** The network answered the request with the response [L]. *)
Definition answered (net : Requests.network) (L : Requests.Response) : Prop :=
  net J request_headers 30 = inr L.

(** What is logged up to and including the request. *)
Definition request_log : list event :=
  [Print stdout (lit "getting curseforge api key from " ++ J ++ lit "...");
   Print stdout (lit "requesting bytes 82926761-83010957...");
   Get J request_headers 30].

(** What is logged up to the call of [zlib.decompress], when the response
    [L] passed [raise_for_status]. *)
Definition fetch_log (L : Requests.Response) : list event :=
  request_log ++
  [RaiseForStatus L;
   Print stdout (lit "downloaded " ++ str_of_int (len (Requests.content L))
                 ++ lit " bytes (compressed)");
   Decompress (Requests.content L)].

(** What is logged up to the search for the marker in the decompressed
    bytes [V]. *)
Definition scan_log (L : Requests.Response) (V : bytes) : list event :=
  fetch_log L ++
  [Print stdout (lit "decompressed to " ++ str_of_int (len V) ++ lit " bytes");
   Find V marker 0].

(** The events of a log that are calls of [print] on the given stream. *)
Definition printed (f : stream) (l : list event) : list str :=
  flat_map (fun ev => match ev with
                      | Print f' t =>
                        match f, f' with
                        | stdout, stdout | stderr, stderr => [t]
                        | _, _ => []
                        end
                      | _ => []
                      end) l.

(** The run fetched the response [L], which passed [raise_for_status], and
    decompressed its body to [V]. *)
Definition decompressed (net : Requests.network) (L : Requests.Response)
           (V : bytes) : Prop :=
  answered net L /\ Requests.raise_for_status L = None
  /\ Zlib.decompress (Requests.content L) = inr V.

(** The message of the two outer [except] clauses for an exception of the
    fetch: the first clause takes the exceptions of [requests], the second
    all others. *)
Definition diagnostic (e : exc) : str :=
  (if matches except_RequestException e then lit "network error: "
   else lit "error: ") ++ exc_str e.

(** The text of the marker, as [G.decode()] gives it. *)
Definition marker_text : str :=
  dquote_char :: lit "cfCoreApiKey" ++ dquote_char :: lit ":" ++ [dquote_char].

(** The eight ways in which a run of [E] ends, each with its log and the
    value returned. *)
Inductive ends (out : terminal) (net : Requests.network)
  : list event -> value -> Prop :=
| ends_get_raises e :
    net J request_headers 30 = inl e ->
    ends out net (request_log ++ [Print stderr (diagnostic e)]) None
| ends_status_raises L e :
    answered net L ->
    Requests.raise_for_status L = Some e ->
    ends out net (request_log ++
              [RaiseForStatus L;
               Print stderr (lit "network error: " ++ exc_str e)]) None
| ends_decompress_raises L e :
    answered net L ->
    Requests.raise_for_status L = None ->
    Zlib.decompress (Requests.content L) = inl e ->
    ends out net (fetch_log L ++
              [Print stderr (lit "decompression error: " ++ exc_str e)]) None
| ends_marker_missing L V :
    decompressed net L V ->
    find V marker 0 = -1 ->
    ends out net (scan_log L V ++
              [Decode marker;
               Print stderr (lit "couldnt find string " ++ marker_text)]) None
| ends_no_quote L V N :
    decompressed net L V ->
    find V marker 0 = N -> N <> -1 ->
    find V [dquote] (N + len marker) = -1 ->
    ends out net (scan_log L V ++
              [Find V [dquote] (N + len marker);
               Print stderr (lit "no closing quote")]) None
| ends_decode_raises L V N P e :
    decompressed net L V ->
    find V marker 0 = N -> N <> -1 ->
    find V [dquote] (N + len marker) = P -> P <> -1 ->
    decode (slice V (N + len marker) P) = inl e ->
    ends out net (scan_log L V ++
              [Find V [dquote] (N + len marker);
               Decode (slice V (N + len marker) P);
               Print stderr (lit "error: " ++ exc_str e)]) None
| ends_print_raises L V N P Q :
    decompressed net L V ->
    find V marker 0 = N -> N <> -1 ->
    find V [dquote] (N + len marker) = P -> P <> -1 ->
    decode (slice V (N + len marker) P) = inr Q ->
    can_write out (lit "api key: " ++ Q) = false ->
    ends out net (scan_log L V ++
              [Find V [dquote] (N + len marker);
               Decode (slice V (N + len marker) P);
               Print stderr
                 (lit "error: "
                  ++ encode_error out (lit "api key: " ++ Q))]) None
| ends_key L V N P Q :
    decompressed net L V ->
    find V marker 0 = N -> N <> -1 ->
    find V [dquote] (N + len marker) = P -> P <> -1 ->
    decode (slice V (N + len marker) P) = inr Q ->
    can_write out (lit "api key: " ++ Q) = true ->
    ends out net (scan_log L V ++
              [Find V [dquote] (N + len marker);
               Decode (slice V (N + len marker) P);
               Print stdout (lit "api key: " ++ Q)]) (Some Q).

(** The steps of the pipeline, and the ones a log shows as attempted, in
    the order of the attempts. *)
Inductive step := Fetch | Decompression | Scan.

Definition steps (l : list event) : list step :=
  flat_map (fun ev => match ev with
                      | Get _ _ _ => [Fetch]
                      | Decompress _ => [Decompression]
                      | Find _ _ _ | Decode _ => [Scan]
                      | _ => []
                      end) l.

(** The line [main] prints before it exits with status 1. *)
Definition failed_line : event :=
  Print stderr (lit "failed to extract api key").

(** The requests a log shows: address, headers and timeout of each
    [requests.get]. *)
Definition requests_made (l : list event)
  : list (str * list (str * str) * Z) :=
  flat_map (fun ev => match ev with
                      | Get u h t => [(u, h, t)]
                      | _ => []
                      end) l.

(** ** Example runs

    Two standard outputs, a network that answers every request with the
    given status and body, and the zlib streams (as [zlib.compress] writes
    them) of a few buffers. *)

(** A standard output that encodes every character the decoder yields
    (UTF-8). *)
Definition utf8_stdout : terminal :=
  mk_terminal (fun _ => true) (fun _ => []).

(** A standard output with the ASCII codec.  Its [UnicodeEncodeError]
    names the first run of characters beyond ASCII: the character and its
    position when the run is a single character, the first and last
    positions otherwise. *)
Definition hex_digit (d : Z) : Z := if d <? 10 then 48 + d else 87 + d.

Fixpoint hex (width : nat) (n : Z) : str :=
  match width with
  | O => []
  | S w => hex w (n / 16) ++ [hex_digit (n mod 16)]
  end.

(** The character as [repr] writes it inside the message. *)
Definition char_escape (c : Z) : str :=
  if c <? 256 then lit "\x" ++ hex 2 c
  else if c <? 65536 then lit "\u" ++ hex 4 c
  else lit "\U" ++ hex 8 c.

Fixpoint run_length (p : Z -> bool) (text : str) : nat :=
  match text with
  | c :: text' => if p c then S (run_length p text') else O
  | [] => O
  end.

Definition ascii_encode_error (text : str) : str :=
  let start := run_length (fun c => c <? 128) text in
  let rest := skipn start text in
  let n := run_length (fun c => negb (c <? 128)) rest in
  match rest, n with
  | c :: _, 1%nat =>
    lit "'ascii' codec can't encode character '" ++ char_escape c
    ++ lit "' in position " ++ str_of_int (Z.of_nat start)
    ++ lit ": ordinal not in range(128)"
  | _, _ =>
    lit "'ascii' codec can't encode characters in position "
    ++ str_of_int (Z.of_nat start) ++ lit "-"
    ++ str_of_int (Z.of_nat start + Z.of_nat n - 1)
    ++ lit ": ordinal not in range(128)"
  end.

Definition ascii_stdout : terminal :=
  mk_terminal (fun _ => false) ascii_encode_error.

Definition serve (status : Z) (body : bytes) : Requests.network :=
  fun u _ _ => inr (Requests.mk_Response status (lit "") u body).

(** The response [serve status body] gives to the request of the script. *)
Definition served (status : Z) (body : bytes) : Requests.Response :=
  Requests.mk_Response status (lit "") J body.

(** A buffer without the marker. *)
Definition plain_buffer : bytes := blit "nothing here".

Definition plain_stream : bytes :=
  [x78; x01; x01; x0c; x00; xf3; xff; x6e; x6f; x74; x68; x69; x6e; x67;
   x20; x68; x65; x72; x65; x1f; x95; x04; xbc].

(** The buffer of the specification's scenario A, between two bytes on
    each side. *)
Definition key_buffer : bytes :=
  blit "xx{" ++ marker ++ blit "abc123XYZ" ++ dquote :: blit "}yy".

Definition key_stream : bytes :=
  [x78; xda; xab; xa8; xa8; x56; x4a; x4e; x73; xce; x2f; x4a; x75; x2c;
   xc8; xf4; x4e; xad; x54; xb2; x52; x4a; x4c; x4a; x36; x34; x32; x8e;
   x88; x8c; x52; xaa; xad; xac; x04; x00; xba; xae; x0a; xf9].

(** The marker followed at once by the closing quote. *)
Definition empty_buffer : bytes :=
  blit "{" ++ marker ++ dquote :: blit "}".

Definition empty_stream : bytes :=
  [x78; x01; x01; x13; x00; xec; xff; x7b; x22; x63; x66; x43; x6f; x72;
   x65; x41; x70; x69; x4b; x65; x79; x22; x3a; x22; x22; x7d; x42; x96;
   x06; x50].

(** The marker and a value that is never closed. *)
Definition open_buffer : bytes := blit "{" ++ marker ++ blit "abc".

Definition open_stream : bytes :=
  [x78; x01; x01; x14; x00; xeb; xff; x7b; x22; x63; x66; x43; x6f; x72;
   x65; x41; x70; x69; x4b; x65; x79; x22; x3a; x22; x61; x62; x63; x49;
   xd0; x06; xd7].

(** A value that is not UTF-8: the single byte 0xff. *)
Definition bad_buffer : bytes :=
  blit "{" ++ marker ++ [xff] ++ dquote :: blit "}".

Definition bad_stream : bytes :=
  [x78; x01; x01; x14; x00; xeb; xff; x7b; x22; x63; x66; x43; x6f; x72;
   x65; x41; x70; x69; x4b; x65; x79; x22; x3a; x22; xff; x22; x7d; x4b;
   x44; x07; x4f].



Definition verbatim_stream : bytes :=
  [x78; x9c; xab; x56; x4a; x4e; x73; xce; x2f; x4a; x75; x2c; xc8; xf4;
   x4e; xad; x54; xb2; x52; x52; xc8; x3e; xbc; xb2; x32; x26; x4f; x41;
   xa9; x16; x00; x86; x92; x09; xaa].

(** A raw deflate stream (one final block of the fixed code holding only
    the end-of-block symbol), and the same block as a zlib stream. *)
Definition raw_deflate_stream : bytes := [x03; x00].

Definition zlib_of_nothing : bytes :=
  [x78; xda; x03; x00; x00; x00; x00; x01].

(** The bytes begin with the header of a zlib stream (RFC 1950): CMF and
    FLG form a multiple of 31, and the compression method is 8. *)
Definition zlib_header (data : bytes) : Prop :=
  exists cmf flg rest,
    data = cmf :: flg :: rest
    /\ (byte_val cmf * 256 + byte_val flg) mod 31 = 0
    /\ Z.land (byte_val cmf) 15 = 8.

(** * Properties *)

(** ** Searching *)

Section Searching.

Variable sub : bytes.

Lemma starts_with_iff (s : bytes) :
  starts_with s sub = true <-> exists post, s = sub ++ post.
Proof.
  revert s. induction sub as [|c sub' IH]; intros s; simpl.
  - split; [intros _; now exists s | reflexivity].
  - destruct s as [|d s']; simpl.
    + split; [discriminate | intros [post H]; discriminate].
    + rewrite andb_true_iff, IH. split.
      * intros [Hc [post ->]]. apply byte_dec_bl in Hc. subst. now exists post.
      * intros [post H]. injection H as -> ->. split.
        -- now apply byte_dec_lb.
        -- now exists post.
Qed.

Lemma occurs_at_0 (s : bytes) :
  occurs_at sub s 0 <-> starts_with s sub = true.
Proof.
  rewrite starts_with_iff. split.
  - intros (pre & post & -> & Hl). destruct pre; [now exists post | discriminate].
  - intros [post ->]. now exists [], post.
Qed.

Lemma occurs_at_S (b : byte) (s : bytes) (k : nat) :
  occurs_at sub (b :: s) (S k) <-> occurs_at sub s k.
Proof.
  split.
  - intros (pre & post & H & Hl). destruct pre as [|p pre]; [discriminate|].
    injection H as -> ->. injection Hl as <-. now exists pre, post.
  - intros (pre & post & -> & <-). now exists (b :: pre), post.
Qed.

Lemma occurs_at_nil (k : nat) : occurs_at sub [] (S k) -> False.
Proof. intros (pre & post & H & Hl). destruct pre; discriminate. Qed.

Lemma find_at_lower (s : bytes) (i : Z) :
  find_at s sub i = -1 \/ i <= find_at s sub i.
Proof.
  revert i. induction s as [|b s IH]; intros i; simpl.
  - destruct (starts_with [] sub); [right; lia | now left].
  - destruct (starts_with (b :: s) sub); [right; lia|].
    destruct (IH (i + 1)) as [H|H]; [now left | right; lia].
Qed.

(** [find_at] returns the offset of the first occurrence. *)
Lemma find_at_first (s : bytes) (k : nat) (i : Z) :
  first_at sub s k -> find_at s sub i = i + Z.of_nat k.
Proof.
  revert k i. induction s as [|b s IH]; intros k i [Hocc Hmin].
  - destruct k as [|k]; [|now apply occurs_at_nil in Hocc].
    apply occurs_at_0 in Hocc. simpl in *. rewrite Hocc. lia.
  - destruct k as [|k].
    + apply occurs_at_0 in Hocc. simpl find_at. rewrite Hocc. lia.
    + simpl find_at.
      destruct (starts_with (b :: s) sub) eqn:Hs.
      * exfalso. apply (Hmin O); [lia | now apply occurs_at_0].
      * rewrite (IH k (i + 1)); [lia|]. split.
        -- now apply occurs_at_S in Hocc.
        -- intros j Hj Hoj. apply (Hmin (S j)); [lia | now apply occurs_at_S].
Qed.

(** [find_at] returns -1 when there is no occurrence. *)
Lemma find_at_absent (s : bytes) (i : Z) :
  ~ contains sub s -> find_at s sub i = -1.
Proof.
  revert i. induction s as [|b s IH]; intros i Hno; simpl.
  - destruct (starts_with [] sub) eqn:Hs; [|reflexivity].
    exfalso. apply Hno. exists O. now apply occurs_at_0.
  - destruct (starts_with (b :: s) sub) eqn:Hs.
    + exfalso. apply Hno. exists O. now apply occurs_at_0.
    + apply IH. intros [k Hk]. apply Hno. exists (S k). now apply occurs_at_S.
Qed.

(** An occurrence has a first one. *)
Lemma contains_first (s : bytes) :
  contains sub s -> exists k, first_at sub s k.
Proof.
  induction s as [|b s IH]; intros [k Hk].
  - destruct k; [|now apply occurs_at_nil in Hk].
    exists O. split; [assumption | intros j Hj; lia].
  - destruct (starts_with (b :: s) sub) eqn:Hs.
    + exists O. split; [now apply occurs_at_0 | intros j Hj; lia].
    + destruct k as [|k]; [apply occurs_at_0 in Hk; congruence|].
      apply occurs_at_S in Hk. destruct IH as [k' [Ho Hmin]]; [now exists k|].
      exists (S k'). split; [now apply occurs_at_S|].
      intros [|j] Hj Hoj.
      * apply occurs_at_0 in Hoj. congruence.
      * apply occurs_at_S in Hoj. apply (Hmin j); [lia | assumption].
Qed.

Lemma occurs_at_bound (s : bytes) (k : nat) :
  occurs_at sub s k -> Z.of_nat k + len sub <= len s.
Proof.
  intros (pre & post & -> & <-). unfold len. rewrite !length_app. lia.
Qed.

(** [s.find(sub, start)] for a [start] inside [s]. *)
Lemma find_split (pre post : bytes) :
  find (pre ++ post) sub (len pre) =
  if len post <? len sub then -1 else find_at post sub (len pre).
Proof.
  unfold find, len. rewrite length_app.
  replace (Z.of_nat (List.length pre) <? 0) with false by (symmetry; apply Z.ltb_ge; lia).
  replace (Z.of_nat (List.length pre + List.length post) - Z.of_nat (List.length pre))
    with (Z.of_nat (List.length post)) by lia.
  rewrite Nat2Z.id, skipn_app, skipn_all, Nat.sub_diag. reflexivity.
Qed.

Lemma find_from_first (pre post : bytes) (k : nat) :
  first_at sub post k ->
  find (pre ++ post) sub (len pre) = len pre + Z.of_nat k.
Proof.
  intros Hf. rewrite find_split.
  pose proof (occurs_at_bound _ _ (proj1 Hf)) as Hb.
  replace (len post <? len sub) with false by (symmetry; apply Z.ltb_ge; unfold len in *; lia).
  now apply find_at_first.
Qed.

Lemma find_from_absent (pre post : bytes) :
  ~ contains sub post -> find (pre ++ post) sub (len pre) = -1.
Proof.
  intros Hno. rewrite find_split.
  destruct (len post <? len sub); [reflexivity | now apply find_at_absent].
Qed.

Lemma find_first (s : bytes) (k : nat) :
  first_at sub s k -> find s sub 0 = Z.of_nat k.
Proof. intros H. now apply (find_from_first [] s k). Qed.

Lemma find_absent (s : bytes) : ~ contains sub s -> find s sub 0 = -1.
Proof. intros H. now apply (find_from_absent [] s). Qed.

End Searching.

(** ** The branches of [E] *)

Lemma headers_eq :
  [(lit "Range", lit "bytes=" ++ str_of_int D ++ lit "-" ++ str_of_int (D + K))]
  = request_headers.
Proof. reflexivity. Qed.

Lemma decompress_error_class (M : bytes) (e : exc) :
  Zlib.decompress M = inl e -> exc_type e = zlib_error.
Proof.
  unfold Zlib.decompress.
  destruct (Zlib.run _ M); intros H; inversion H; reflexivity.
Qed.

Lemma decode_error_class (s : bytes) (e : exc) :
  decode s = inl e -> exc_type e = UnicodeDecodeError.
Proof.
  unfold decode. destruct (utf8_decode s 0); intros H; inversion H; reflexivity.
Qed.

Lemma raise_for_status_class (L : Requests.Response) (e : exc) :
  Requests.raise_for_status L = Some e -> exc_type e = HTTPError.
Proof.
  unfold Requests.raise_for_status.
  destruct (_ && _); [intros H; inversion H; reflexivity|].
  destruct (_ && _); intros H; inversion H; reflexivity.
Qed.

(** The progress lines are ASCII, so every standard output takes them. *)
Lemma can_write_app (out : terminal) (a b : str) :
  can_write out (a ++ b) = can_write out a && can_write out b.
Proof. apply forallb_app. Qed.

Lemma can_write_uint (out : terminal) (d : Decimal.uint) :
  can_write out (lit (NilEmpty.string_of_uint d)) = true.
Proof. induction d; [reflexivity | exact IHd ..]. Qed.

Lemma can_write_int (out : terminal) (n : Z) :
  can_write out (str_of_int n) = true.
Proof.
  unfold str_of_int.
  destruct (Z.to_int n) as [d|d]; cbn [NilZero.string_of_int].
  - destruct d; try apply (can_write_uint out (Decimal.Nil)); apply can_write_uint.
  - change (can_write out (45 :: lit (NilZero.string_of_uint d)) = true).
    cbn [can_write forallb]. change (45 <? 128) with true. cbn [orb andb].
    destruct d; try reflexivity; apply can_write_uint.
Qed.

Lemma writes_downloaded (out : terminal) (n : Z) :
  can_write out (lit "downloaded " ++ str_of_int n
                 ++ lit " bytes (compressed)") = true.
Proof. now rewrite !can_write_app, can_write_int. Qed.

Lemma writes_decompressed (out : terminal) (n : Z) :
  can_write out (lit "decompressed to " ++ str_of_int n ++ lit " bytes")
  = true.
Proof. now rewrite !can_write_app, can_write_int. Qed.

Ltac run :=
  cbv [bind call A print ret return_ try_ handler F];
  rewrite ?writes_downloaded, ?writes_decompressed.

Ltac start := unfold E; cbv zeta; rewrite headers_eq.

Lemma E_get_raises (out : terminal) (net : Requests.network) (e : exc) :
  net J request_headers 30 = inl e ->
  E out net = (request_log ++ [Print stderr (diagnostic e)], Return None).
Proof.
  intros H. start. rewrite H.
  unfold diagnostic. destruct e as [[] msg]; reflexivity.
Qed.

Lemma E_status_raises (out : terminal) (net : Requests.network) (L : Requests.Response) (e : exc) :
  answered net L -> Requests.raise_for_status L = Some e ->
  E out net = (request_log ++
           [RaiseForStatus L; Print stderr (lit "network error: " ++ exc_str e)],
           Return None).
Proof.
  intros H Hs. pose proof (raise_for_status_class _ _ Hs) as Hc.
  start. rewrite H. run. rewrite Hs.
  destruct e as [c msg]; simpl in Hc; subst c. reflexivity.
Qed.

Lemma E_decompress_raises (out : terminal) (net : Requests.network) (L : Requests.Response) (e : exc) :
  answered net L -> Requests.raise_for_status L = None ->
  Zlib.decompress (Requests.content L) = inl e ->
  E out net = (fetch_log L ++
           [Print stderr (lit "decompression error: " ++ exc_str e)],
           Return None).
Proof.
  intros H Hs Hd. pose proof (decompress_error_class _ _ Hd) as Hc.
  start. rewrite H. run. rewrite Hs, Hd.
  destruct e as [c msg]; simpl in Hc; subst c. reflexivity.
Qed.

Section Scanning.

Variable out : terminal.
Variables (net : Requests.network) (L : Requests.Response) (V : bytes).
Hypothesis Hnet : answered net L.
Hypothesis Hstatus : Requests.raise_for_status L = None.
Hypothesis Hdec : Zlib.decompress (Requests.content L) = inr V.

Ltac scan :=
  start; rewrite Hnet; run; rewrite Hstatus; run; rewrite Hdec; run.

Lemma E_marker_missing :
  find V marker 0 = -1 ->
  E out net = (scan_log L V ++
           [Decode marker;
            Print stderr (lit "couldnt find string " ++ marker_text)],
           Return None).
Proof.
  intros Hf. scan. rewrite Hf. reflexivity.
Qed.

Lemma E_no_quote (N : Z) :
  find V marker 0 = N -> N <> -1 ->
  find V [dquote] (N + len marker) = -1 ->
  E out net = (scan_log L V ++
           [Find V [dquote] (N + len marker);
            Print stderr (lit "no closing quote")],
           Return None).
Proof.
  intros Hf Hn Hq. apply Z.eqb_neq in Hn.
  scan. rewrite Hf, Hn, Hq. reflexivity.
Qed.

Lemma E_decode_raises (N P : Z) (e : exc) :
  find V marker 0 = N -> N <> -1 ->
  find V [dquote] (N + len marker) = P -> P <> -1 ->
  decode (slice V (N + len marker) P) = inl e ->
  E out net = (scan_log L V ++
           [Find V [dquote] (N + len marker);
            Decode (slice V (N + len marker) P);
            Print stderr (lit "error: " ++ exc_str e)],
           Return None).
Proof.
  intros Hf Hn Hq Hp Hd. apply Z.eqb_neq in Hn, Hp.
  pose proof (decode_error_class _ _ Hd) as Hc.
  scan. rewrite Hf, Hn, Hq, Hp, Hd.
  destruct e as [c msg]; simpl in Hc; subst c. reflexivity.
Qed.

Lemma E_print_raises (N P : Z) (Q : str) :
  find V marker 0 = N -> N <> -1 ->
  find V [dquote] (N + len marker) = P -> P <> -1 ->
  decode (slice V (N + len marker) P) = inr Q ->
  can_write out (lit "api key: " ++ Q) = false ->
  E out net = (scan_log L V ++
           [Find V [dquote] (N + len marker);
            Decode (slice V (N + len marker) P);
            Print stderr
              (lit "error: " ++ encode_error out (lit "api key: " ++ Q))],
           Return None).
Proof.
  intros Hf Hn Hq Hp Hd Hw. apply Z.eqb_neq in Hn, Hp.
  scan. rewrite Hf, Hn, Hq, Hp, Hd. run. rewrite Hw. reflexivity.
Qed.

Lemma E_returns_key (N P : Z) (Q : str) :
  find V marker 0 = N -> N <> -1 ->
  find V [dquote] (N + len marker) = P -> P <> -1 ->
  decode (slice V (N + len marker) P) = inr Q ->
  can_write out (lit "api key: " ++ Q) = true ->
  E out net = (scan_log L V ++
           [Find V [dquote] (N + len marker);
            Decode (slice V (N + len marker) P);
            Print stdout (lit "api key: " ++ Q)],
           Return (Some Q)).
Proof.
  intros Hf Hn Hq Hp Hd Hw. apply Z.eqb_neq in Hn, Hp.
  scan. rewrite Hf, Hn, Hq, Hp, Hd. run. rewrite Hw. reflexivity.
Qed.

End Scanning.

(** Every run of [E] ends by a [return], in one of the eight ways of
    [ends]: no exception leaves the function. *)
Lemma E_run (out : terminal) (net : Requests.network) :
  exists l v, E out net = (l, Return v) /\ ends out net l v.
Proof.
  destruct (net J request_headers 30) as [e|L] eqn:Hnet.
  { eexists _, _. split; [eapply E_get_raises | econstructor]; eassumption. }
  destruct (Requests.raise_for_status L) as [e|] eqn:Hs.
  { eexists _, _. split; [eapply E_status_raises | econstructor]; eassumption. }
  destruct (Zlib.decompress (Requests.content L)) as [e|V] eqn:Hd.
  { eexists _, _.
    split; [eapply E_decompress_raises | econstructor 3]; eassumption. }
  assert (Hdec : decompressed net L V) by (repeat split; assumption).
  destruct (Z.eq_dec (find V marker 0) (-1)) as [Hf|Hf].
  { eexists _, _.
    split; [eapply E_marker_missing | econstructor 4]; eassumption. }
  destruct (Z.eq_dec (find V [dquote] (find V marker 0 + len marker)) (-1))
    as [Hq|Hq].
  { eexists _, _. split.
    - exact (E_no_quote out net L V Hnet Hs Hd _ eq_refl Hf Hq).
    - exact (ends_no_quote out net L V _ Hdec eq_refl Hf Hq). }
  destruct (decode (slice V (find V marker 0 + len marker)
                      (find V [dquote] (find V marker 0 + len marker))))
    as [e|Q] eqn:Hu.
  - eexists _, _. split.
    + exact (E_decode_raises out net L V Hnet Hs Hd _ _ e eq_refl Hf eq_refl Hq Hu).
    + exact (ends_decode_raises out net L V _ _ e Hdec eq_refl Hf eq_refl Hq Hu).
  - destruct (can_write out (lit "api key: " ++ Q)) eqn:Hw.
    + eexists _, _. split.
      * exact (E_returns_key out net L V Hnet Hs Hd _ _ Q eq_refl Hf eq_refl
                 Hq Hu Hw).
      * exact (ends_key out net L V _ _ Q Hdec eq_refl Hf eq_refl Hq Hu Hw).
    + eexists _, _. split.
      * exact (E_print_raises out net L V Hnet Hs Hd _ _ Q eq_refl Hf eq_refl
                 Hq Hu Hw).
      * exact (ends_print_raises out net L V _ _ Q Hdec eq_refl Hf eq_refl Hq
                 Hu Hw).
Qed.

(** What [main] does with the value [E] returned. *)
Lemma main_of_E (out : terminal) (net : Requests.network) (l : list event) (v : value) :
  E out net = (l, Return v) ->
  result (E out net) = (l, inr v)
  /\ main out net = if truthy v then (l, 0) else (l ++ [failed_line], 1).
Proof.
  intros H. unfold main. rewrite H. simpl. split; [reflexivity|].
  destruct (truthy v); reflexivity.
Qed.

(** ** Buffers that hold the marker *)

Lemma len_app {T : Type} (a b : list T) : len (a ++ b) = len a + len b.
Proof. unfold len. rewrite length_app. lia. Qed.

Lemma len_nonneg {T : Type} (a : list T) : 0 <= len a.
Proof. unfold len. lia. Qed.

Lemma occurs_single_In (b : byte) (s : bytes) (k : nat) :
  occurs_at [b] s k -> In b s.
Proof.
  intros (pre & post & -> & _). apply in_or_app. right. now left.
Qed.

(** The first occurrence of a byte is where the bytes before it do not
    hold it. *)
Lemma first_at_single (b : byte) (val post : bytes) :
  ~ In b val -> first_at [b] (val ++ b :: post) (List.length val).
Proof.
  intros Hno. split.
  - now exists val, post.
  - intros j Hj (p & q & Heq & Hl). apply Hno.
    assert (Hn : nth_error (val ++ b :: post) j = Some b).
    { rewrite Heq, nth_error_app2 by lia.
      now replace (j - List.length p)%nat with O by lia. }
    rewrite nth_error_app1 in Hn by assumption.
    now apply nth_error_In in Hn.
Qed.

(** [s[lo:hi]] between two offsets inside [s]. *)
Lemma slice_middle {T : Type} (a m c : list T) :
  slice (a ++ m ++ c) (len a) (len a + len m) = m.
Proof.
  unfold slice, adjust_index.
  pose proof (len_nonneg a). pose proof (len_nonneg m).
  pose proof (len_nonneg c).
  rewrite !len_app.
  replace (len a <? 0) with false by (symmetry; apply Z.ltb_ge; lia).
  replace (len a + len m <? 0) with false by (symmetry; apply Z.ltb_ge; lia).
  rewrite !Z.min_l by lia.
  replace (len a + len m - len a) with (len m) by lia.
  unfold len. rewrite !Nat2Z.id, skipn_app, skipn_all, Nat.sub_diag.
  simpl. rewrite firstn_app, firstn_all, Nat.sub_diag. simpl.
  apply app_nil_r.
Qed.

Section Marked.

Variable out : terminal.
Variables (net : Requests.network) (L : Requests.Response).
Variables (V pre : bytes).
Hypothesis Hdec : decompressed net L V.
Hypothesis Hfirst : first_at marker V (List.length pre).

Lemma find_marker : find V marker 0 = len pre.
Proof. now apply find_first. Qed.

Lemma find_marker_found : len pre <> -1.
Proof. pose proof (len_nonneg pre). lia. Qed.

(** The value is closed: [E] decodes exactly the bytes before the quote,
    and prints the key if standard output takes it. *)
Lemma E_closed_value (val post : bytes) :
  V = pre ++ marker ++ val ++ dquote :: post ->
  ~ In dquote val ->
  E out net =
  (scan_log L V ++
   [Find V [dquote] (len pre + len marker); Decode val;
    match decode val with
    | inl e => Print stderr (lit "error: " ++ exc_str e)
    | inr Q =>
      if can_write out (lit "api key: " ++ Q)
      then Print stdout (lit "api key: " ++ Q)
      else Print stderr
             (lit "error: " ++ encode_error out (lit "api key: " ++ Q))
    end],
   Return match decode val with
          | inl _ => None
          | inr Q =>
            if can_write out (lit "api key: " ++ Q) then Some Q else None
          end).
Proof.
  intros HV Hno. destruct Hdec as (Hnet & Hs & Hd).
  assert (Hq : find V [dquote] (len pre + len marker)
               = len pre + len marker + len val).
  { rewrite HV at 1. rewrite app_assoc, <- len_app.
    apply (find_from_first [dquote] (pre ++ marker)).
    now apply first_at_single. }
  assert (Hsl : slice V (len pre + len marker)
                      (len pre + len marker + len val) = val).
  { rewrite HV at 1. rewrite app_assoc, <- len_app. apply slice_middle. }
  assert (Hp : len pre + len marker + len val <> -1).
  { pose proof (len_nonneg pre). pose proof (len_nonneg marker).
    pose proof (len_nonneg val). lia. }
  destruct (decode val) as [e|Q] eqn:Hu.
  - rewrite (E_decode_raises out net L V Hnet Hs Hd _ _ e find_marker
               find_marker_found Hq Hp); rewrite Hsl; [reflexivity | exact Hu].
  - destruct (can_write out (lit "api key: " ++ Q)) eqn:Hw.
    + rewrite (E_returns_key out net L V Hnet Hs Hd _ _ Q find_marker
                 find_marker_found Hq Hp); rewrite ?Hsl;
        [reflexivity | exact Hu | exact Hw].
    + rewrite (E_print_raises out net L V Hnet Hs Hd _ _ Q find_marker
                 find_marker_found Hq Hp); rewrite ?Hsl;
        [reflexivity | exact Hu | exact Hw].
Qed.

(** The value is not closed. *)
Lemma E_open_value (post : bytes) :
  V = pre ++ marker ++ post ->
  ~ In dquote post ->
  E out net =
  (scan_log L V ++
   [Find V [dquote] (len pre + len marker);
    Print stderr (lit "no closing quote")],
   Return None).
Proof.
  intros HV Hno. destruct Hdec as (Hnet & Hs & Hd).
  apply (E_no_quote out net L V Hnet Hs Hd _ find_marker find_marker_found).
  rewrite HV at 1. rewrite app_assoc, <- len_app.
  apply find_from_absent. intros [k Hk]. apply Hno.
  now apply occurs_single_In in Hk.
Qed.

End Marked.

(** ** Deciding occurrences by running the search *)

Lemma find_at_sound (sub s : bytes) (k : nat) (i : Z) :
  0 <= i -> find_at s sub i = i + Z.of_nat k -> first_at sub s k.
Proof.
  revert k i. induction s as [|b s IH]; intros k i Hi; simpl.
  - destruct (starts_with [] sub) eqn:Hs; [|lia].
    intros Hk. assert (k = O) by lia. subst k.
    split; [now apply occurs_at_0 | intros j Hj; lia].
  - destruct (starts_with (b :: s) sub) eqn:Hs.
    + intros Hk. assert (k = O) by lia. subst k.
      split; [now apply occurs_at_0 | intros j Hj; lia].
    + intros Hk. destruct (find_at_lower sub s (i + 1)) as [Hl|Hl]; [lia|].
      destruct k as [|k]; [lia|].
      destruct (IH k (i + 1)) as [Ho Hmin]; [lia | lia |].
      split; [now apply occurs_at_S|].
      intros [|j] Hj Hoj.
      * apply occurs_at_0 in Hoj. congruence.
      * apply occurs_at_S in Hoj. apply (Hmin j); [lia | assumption].
Qed.

Lemma first_at_by_find (sub s : bytes) (k : nat) :
  find_at s sub 0 = Z.of_nat k -> first_at sub s k.
Proof. intros H. apply (find_at_sound sub s k 0); lia. Qed.

Lemma absent_by_find (sub s : bytes) :
  find_at s sub 0 = -1 -> ~ contains sub s.
Proof.
  intros H Hc. apply contains_first in Hc. destruct Hc as [k Hk].
  rewrite (find_at_first sub s k 0 Hk) in H. lia.
Qed.


(** ** The claims *)

Lemma serve_decompressed (status : Z) (body V : bytes) :
  Requests.raise_for_status (served status body) = None ->
  Zlib.decompress body = inr V ->
  decompressed (serve status body) (served status body) V.
Proof. intros Hs Hd. repeat split; assumption. Qed.

Ltac served_ok := apply serve_decompressed; vm_compute; reflexivity.

Ltac no_quote := cbv; intuition discriminate.

(** C4: for every decompressed buffer that does not contain the marker
    bytes, the run looks for the marker, prints the marker-not-found
    diagnostic (couldnt find string, followed by the marker) on standard
    error and returns [None]: no credential is produced. *)
Theorem C4_marker_absent (out : terminal) (net : Requests.network) (L : Requests.Response)
        (V : bytes) :
  decompressed net L V ->
  ~ contains marker V ->
  result (E out net) =
  (scan_log L V ++
   [Decode marker; Print stderr (lit "couldnt find string " ++ marker_text)],
   inr None).
Proof.
  intros (Hnet & Hs & Hd) Hno.
  apply main_of_E, (E_marker_missing out net L V Hnet Hs Hd).
  now apply find_absent.
Qed.

Lemma C4_marker_absent_witness :
  result (E utf8_stdout (serve 206 plain_stream)) =
  (scan_log (served 206 plain_stream) plain_buffer ++
   [Decode marker; Print stderr (lit "couldnt find string " ++ marker_text)],
   inr None).
Proof.
  apply (C4_marker_absent utf8_stdout (serve 206 plain_stream) (served 206 plain_stream)
           plain_buffer).
  - served_ok.
  - apply absent_by_find. vm_compute. reflexivity.
Defined.

(** C5: for every decompressed buffer that contains the marker but no
    double quote after the end of its first occurrence, the run prints the
    unterminated-value diagnostic (no closing quote) on standard error and
    returns [None]. *)
Theorem C5_unterminated_value (out : terminal) (net : Requests.network)
        (L : Requests.Response) (V pre post : bytes) :
  decompressed net L V ->
  V = pre ++ marker ++ post ->
  first_at marker V (List.length pre) ->
  ~ In dquote post ->
  result (E out net) =
  (scan_log L V ++
   [Find V [dquote] (len pre + len marker);
    Print stderr (lit "no closing quote")],
   inr None).
Proof.
  intros Hdec HV Hfirst Hno.
  apply main_of_E. now apply (E_open_value out net L V pre Hdec Hfirst post).
Qed.

Lemma C5_unterminated_value_witness :
  result (E utf8_stdout (serve 206 open_stream)) =
  (scan_log (served 206 open_stream) open_buffer ++
   [Find open_buffer [dquote] (len (blit "{") + len marker);
    Print stderr (lit "no closing quote")],
   inr None).
Proof.
  apply (C5_unterminated_value utf8_stdout (serve 206 open_stream)
           (served 206 open_stream) open_buffer (blit "{") (blit "abc")).
  - served_ok.
  - reflexivity.
  - apply first_at_by_find. vm_compute. reflexivity.
  - no_quote.
Defined.





(** C9: when the first occurrence of the marker is immediately followed by
    a double quote, [E] succeeds and returns the empty string, after
    printing the (empty) key on standard output, and [main] then prints the
    failure line on standard error and exits with status 1. *)
Theorem C9_empty_credential (out : terminal) (net : Requests.network) (L : Requests.Response)
        (V pre post : bytes) :
  decompressed net L V ->
  V = pre ++ marker ++ dquote :: post ->
  first_at marker V (List.length pre) ->
  exists l,
    result (E out net) = (l ++ [Print stdout (lit "api key: ")], inr (Some []))
    /\ main out net = (l ++ [Print stdout (lit "api key: "); failed_line], 1).
Proof.
  intros Hdec HV Hfirst.
  pose proof (E_closed_value out net L V pre Hdec Hfirst [] post HV
                (fun H => H)) as HE.
  change (decode []) with (@inr exc str []) in HE. cbv iota beta in HE.
  rewrite app_nil_r in HE.
  apply main_of_E in HE. destruct HE as [Hr Hm].
  exists (scan_log L V ++
          [Find V [dquote] (len pre + len marker); Decode []]).
  rewrite Hr, Hm. cbn [truthy len List.length Z.of_nat Z.eqb negb].
  rewrite <- !app_assoc. split; reflexivity.
Qed.

Lemma C9_empty_credential_witness :
  exists l,
    result (E utf8_stdout (serve 206 empty_stream))
    = (l ++ [Print stdout (lit "api key: ")], inr (Some []))
    /\ main utf8_stdout (serve 206 empty_stream)
       = (l ++ [Print stdout (lit "api key: "); failed_line], 1).
Proof.
  apply (C9_empty_credential utf8_stdout (serve 206 empty_stream)
           (served 206 empty_stream) empty_buffer (blit "{") (blit "}")).
  - served_ok.
  - reflexivity.
  - apply first_at_by_find. vm_compute. reflexivity.
Defined.

(** C10: when the bytes strictly between the end of the first occurrence of
    the marker and the first double quote after it are not valid UTF-8,
    the [UnicodeDecodeError] does not leave [E]: the last [except] clause
    takes it, its message is printed on standard error after the word
    error, [E] returns [None], and the process exits with status 1. *)
Theorem C10_invalid_utf8 (out : terminal) (net : Requests.network) (L : Requests.Response)
        (V pre val post : bytes) (e : exc) :
  decompressed net L V ->
  V = pre ++ marker ++ val ++ dquote :: post ->
  first_at marker V (List.length pre) ->
  ~ In dquote val ->
  decode val = inl e ->
  result (E out net) =
  (scan_log L V ++
   [Find V [dquote] (len pre + len marker); Decode val;
    Print stderr (lit "error: " ++ exc_str e)],
   inr None)
  /\ snd (main out net) = 1.
Proof.
  intros Hdec HV Hfirst Hno Hu.
  pose proof (E_closed_value out net L V pre Hdec Hfirst val post HV Hno) as HE.
  rewrite Hu in HE. apply main_of_E in HE. destruct HE as [Hr Hm].
  rewrite Hr, Hm. split; reflexivity.
Qed.

Lemma C10_invalid_utf8_witness :
  result (E utf8_stdout (serve 206 bad_stream)) =
  (scan_log (served 206 bad_stream) bad_buffer ++
   [Find bad_buffer [dquote] (len (blit "{") + len marker); Decode [xff];
    Print stderr
      (lit "error: 'utf-8' codec can't decode byte 0xff in position 0: invalid start byte")],
   inr None)
  /\ snd (main utf8_stdout (serve 206 bad_stream)) = 1.
Proof.
  apply (C10_invalid_utf8 utf8_stdout (serve 206 bad_stream) (served 206 bad_stream)
           bad_buffer (blit "{") [xff] (blit "}")
           (mk_exc UnicodeDecodeError
              (lit "'utf-8' codec can't decode byte 0xff in position 0: invalid start byte"))).
  - served_ok.
  - reflexivity.
  - apply first_at_by_find. vm_compute. reflexivity.
  - no_quote.
  - vm_compute. reflexivity.
Defined.

(** What a run has printed when it ends: with a credential, nothing on
    standard error and the key on standard output; without one, a single
    diagnostic on standard error, as the last call, and no key on standard
    output. *)
Lemma ends_prints (out : terminal) (net : Requests.network) (l : list event) (v : value) :
  ends out net l v ->
  match v with
  | Some Q =>
    printed stderr l = []
    /\ In (lit "api key: " ++ Q) (printed stdout l)
  | None =>
    (exists l' diag, l = l' ++ [Print stderr diag] /\ printed stderr l' = [])
    /\ forall Q, ~ In (lit "api key: " ++ Q) (printed stdout l)
  end.
Proof.
  destruct 1; unfold scan_log, fetch_log, request_log;
    repeat rewrite <- app_assoc.
  all: try match goal with
           | |- (exists l' diag, ?l = _ /\ _) /\ _ =>
             split;
             [ exists (removelast l); eexists; split;
               [ cbn [app removelast]; reflexivity | reflexivity ]
             | intros Q0; cbn; intuition discriminate ]
           end.
  split; [reflexivity|].
  cbn [printed flat_map app]. right. right. right. right. now left.
Qed.

(** C2, as stated, fails on the code: the run over [empty_stream] succeeds
    ([E] returns a credential, the empty string) and yet the process exits
    with status 1. *)
Lemma C2_success_with_exit_1 :
  snd (result (E utf8_stdout (serve 206 empty_stream))) = inr (Some [])
  /\ snd (main utf8_stdout (serve 206 empty_stream)) = 1.
Proof. split; vm_compute; reflexivity. Qed.

(** C2, amended: every run of the process ends in one of two ways.  When
    [E] returns a credential, nothing was printed on standard error, the
    credential was printed on standard output, and the exit status is 0 if
    the credential is not empty and 1 (after the failure line) if it is
    empty.  When [E] returns [None] (a network, decompression,
    marker-not-found or unterminated-value failure, or any other
    exception), exactly one diagnostic was printed on standard error, as
    the last call of [E], no credential was printed, and the process prints
    the failure line and exits with status 1.  No exception leaves [E]. *)
Theorem C2_exit_status (out : terminal) (net : Requests.network) :
  exists l v,
    result (E out net) = (l, inr v)
    /\ match v with
       | Some Q =>
         printed stderr l = []
         /\ In (lit "api key: " ++ Q) (printed stdout l)
         /\ main out net = if len Q =? 0 then (l ++ [failed_line], 1) else (l, 0)
       | None =>
         main out net = (l ++ [failed_line], 1)
         /\ (exists l' diag,
                l = l' ++ [Print stderr diag] /\ printed stderr l' = [])
         /\ forall Q, ~ In (lit "api key: " ++ Q) (printed stdout l)
       end.
Proof.
  destruct (E_run out net) as (l & v & HE & Hends).
  apply main_of_E in HE. destruct HE as [Hr Hm].
  apply ends_prints in Hends.
  exists l, v. split; [exact Hr|].
  destruct v as [Q|].
  - destruct Hends as [Herr Hout]. repeat split; try assumption.
    rewrite Hm. unfold truthy. destruct (len Q =? 0); reflexivity.
  - destruct Hends as [Hlast Hout]. repeat split; assumption.
Qed.

(** ** The order of the steps *)

Lemma ends_steps (out : terminal) (net : Requests.network) (l : list event) (v : value) :
  ends out net l v ->
  exists k, steps l = Fetch :: firstn k [Decompression; Scan; Scan; Scan].
Proof.
  destruct 1.
  - now exists 0%nat.
  - now exists 0%nat.
  - now exists 1%nat.
  - now exists 3%nat.
  - now exists 3%nat.
  - now exists 4%nat.
  - now exists 4%nat.
  - now exists 4%nat.
Qed.

(** C6: the steps are attempted in the order fetch, decompress, scan, and
    a failure ends the run.  When the fetch fails (the request raises, or
    the status check does), neither decompression nor the scan is
    attempted; when decompression fails, the scan is not attempted; and
    whenever no credential is returned, the diagnostic is the last call of
    [E] and the only one on standard error, after a single request (no
    retry, nothing recovered). *)
Theorem C6_fail_fast (out : terminal) (net : Requests.network) :
  (exists k,
      steps (fst (E out net)) = Fetch :: firstn k [Decompression; Scan; Scan; Scan])
  /\ (forall e, net J request_headers 30 = inl e ->
                steps (fst (E out net)) = [Fetch])
  /\ (forall L e, answered net L ->
                  Requests.raise_for_status L = Some e ->
                  steps (fst (E out net)) = [Fetch])
  /\ (forall L e, answered net L ->
                  Requests.raise_for_status L = None ->
                  Zlib.decompress (Requests.content L) = inl e ->
                  steps (fst (E out net)) = [Fetch; Decompression])
  /\ (snd (result (E out net)) = inr None ->
      exists l diag,
        fst (E out net) = l ++ [Print stderr diag] /\ printed stderr l = []).
Proof.
  repeat split.
  - destruct (E_run out net) as (l & v & HE & Hends). rewrite HE.
    now apply ends_steps in Hends.
  - intros e H. now rewrite (E_get_raises out net e H).
  - intros L e H Hs. now rewrite (E_status_raises out net L e H Hs).
  - intros L e H Hs Hd. now rewrite (E_decompress_raises out net L e H Hs Hd).
  - destruct (E_run out net) as (l & v & HE & Hends). rewrite HE.
    cbn [result fst snd]. intros Hv. injection Hv as ->.
    apply ends_prints in Hends. exact (proj1 Hends).
Qed.

Lemma C6_fail_fast_witness :
  steps (fst (E utf8_stdout (serve 404 key_stream))) = [Fetch]
  /\ steps (fst (E utf8_stdout (serve 206 raw_deflate_stream))) = [Fetch; Decompression].
Proof.
  split.
  - refine (proj1 (proj2 (proj2 (C6_fail_fast utf8_stdout (serve 404 key_stream))))
              (served 404 key_stream)
              (mk_exc HTTPError
                 (lit "404 Client Error:  for url: " ++ J)) _ _);
      vm_compute; reflexivity.
  - refine (proj1 (proj2 (proj2 (proj2
              (C6_fail_fast utf8_stdout (serve 206 raw_deflate_stream)))))
              (served 206 raw_deflate_stream)
              (mk_exc zlib_error
                 (lit "Error -3 while decompressing data: incorrect header check"))
              _ _ _);
      vm_compute; reflexivity.
Defined.

(** ** Runs over the same fetched bytes *)

(** Two runs on the same standard output whose responses passed the status
    check with the same body log the same calls after the status check and
    end alike. *)
Lemma E_depends_on_content (out : terminal) (net1 net2 : Requests.network)
      (L1 L2 : Requests.Response) :
  answered net1 L1 -> answered net2 L2 ->
  Requests.raise_for_status L1 = None ->
  Requests.raise_for_status L2 = None ->
  Requests.content L1 = Requests.content L2 ->
  exists t o,
    E out net1 = (request_log ++ RaiseForStatus L1 :: t, o)
    /\ E out net2 = (request_log ++ RaiseForStatus L2 :: t, o).
Proof.
  intros H1 H2 Hs1 Hs2 Hc.
  destruct (Zlib.decompress (Requests.content L1)) as [e|V] eqn:Hd1.
  { assert (Hd2 := Hd1). rewrite Hc in Hd2.
    rewrite (E_decompress_raises out net1 L1 e H1 Hs1 Hd1).
    rewrite (E_decompress_raises out net2 L2 e H2 Hs2 Hd2).
    unfold fetch_log. rewrite Hc, <- !app_assoc.
    eexists _, _. split; reflexivity. }
  assert (Hd2 := Hd1). rewrite Hc in Hd2.
  destruct (Z.eq_dec (find V marker 0) (-1)) as [Hf|Hf].
  { rewrite (E_marker_missing out net1 L1 V H1 Hs1 Hd1 Hf).
    rewrite (E_marker_missing out net2 L2 V H2 Hs2 Hd2 Hf).
    unfold scan_log, fetch_log. rewrite Hc, <- !app_assoc.
    eexists _, _. split; reflexivity. }
  destruct (Z.eq_dec (find V [dquote] (find V marker 0 + len marker)) (-1))
    as [Hq|Hq].
  { rewrite (E_no_quote out net1 L1 V H1 Hs1 Hd1 _ eq_refl Hf Hq).
    rewrite (E_no_quote out net2 L2 V H2 Hs2 Hd2 _ eq_refl Hf Hq).
    unfold scan_log, fetch_log. rewrite Hc, <- !app_assoc.
    eexists _, _. split; reflexivity. }
  destruct (decode (slice V (find V marker 0 + len marker)
                      (find V [dquote] (find V marker 0 + len marker))))
    as [e|Q] eqn:Hu.
  - rewrite (E_decode_raises out net1 L1 V H1 Hs1 Hd1 _ _ e eq_refl Hf eq_refl
               Hq Hu).
    rewrite (E_decode_raises out net2 L2 V H2 Hs2 Hd2 _ _ e eq_refl Hf eq_refl
               Hq Hu).
    unfold scan_log, fetch_log. rewrite Hc, <- !app_assoc.
    eexists _, _. split; reflexivity.
  - destruct (can_write out (lit "api key: " ++ Q)) eqn:Hw.
    + rewrite (E_returns_key out net1 L1 V H1 Hs1 Hd1 _ _ Q eq_refl Hf eq_refl
                 Hq Hu Hw).
      rewrite (E_returns_key out net2 L2 V H2 Hs2 Hd2 _ _ Q eq_refl Hf eq_refl
                 Hq Hu Hw).
      unfold scan_log, fetch_log. rewrite Hc, <- !app_assoc.
      eexists _, _. split; reflexivity.
    + rewrite (E_print_raises out net1 L1 V H1 Hs1 Hd1 _ _ Q eq_refl Hf eq_refl
                 Hq Hu Hw).
      rewrite (E_print_raises out net2 L2 V H2 Hs2 Hd2 _ _ Q eq_refl Hf eq_refl
                 Hq Hu Hw).
      unfold scan_log, fetch_log. rewrite Hc, <- !app_assoc.
      eexists _, _. split; reflexivity.
Qed.

Lemma printed_app (f : stream) (l1 l2 : list event) :
  printed f (l1 ++ l2) = printed f l1 ++ printed f l2.
Proof. apply flat_map_app. Qed.

(** C7, as stated, fails on the code: the result does not depend on the
    fetched bytes only.  Two runs over the same fetched bytes
    ([verbatim_stream], with the same status), one on a standard output
    that encodes the key and one on a standard output with the ASCII codec,
    end differently: the first returns the credential and exits with
    status 0, the second returns [None] after the diagnostic of the last
    [except] clause and exits with status 1. *)
Lemma C7_stdout_changes_result :
  Requests.content (served 206 verbatim_stream) = verbatim_stream
  /\ answered (serve 206 verbatim_stream) (served 206 verbatim_stream)
  /\ snd (result (E utf8_stdout (serve 206 verbatim_stream)))
     = inr (Some [32; 107; 233; 121; 92; 110; 32])
  /\ printed stderr (fst (main utf8_stdout (serve 206 verbatim_stream))) = []
  /\ snd (main utf8_stdout (serve 206 verbatim_stream)) = 0
  /\ snd (result (E ascii_stdout (serve 206 verbatim_stream))) = inr None
  /\ printed stderr (fst (main ascii_stdout (serve 206 verbatim_stream)))
     = [lit "error: 'ascii' codec can't encode character '\xe9' in position 11: ordinal not in range(128)";
        lit "failed to extract api key"]
  /\ snd (main ascii_stdout (serve 206 verbatim_stream)) = 1.
Proof. repeat split; vm_compute; reflexivity. Qed.

(** C7, amended: on a given standard output, the pipeline after the fetch
    is a function of the fetched bytes.  Two runs on the same standard
    output, against any two networks, whose responses passed the status
    check with the same body return the same value (the same credential, or
    [None] both), print the same lines on standard output and the same
    diagnostic on standard error, and exit with the same status. *)
Theorem C7_deterministic (out : terminal) (net1 net2 : Requests.network)
        (L1 L2 : Requests.Response) :
  answered net1 L1 -> answered net2 L2 ->
  Requests.raise_for_status L1 = None ->
  Requests.raise_for_status L2 = None ->
  Requests.content L1 = Requests.content L2 ->
  snd (result (E out net1)) = snd (result (E out net2))
  /\ printed stdout (fst (main out net1)) = printed stdout (fst (main out net2))
  /\ printed stderr (fst (main out net1)) = printed stderr (fst (main out net2))
  /\ snd (main out net1) = snd (main out net2).
Proof.
  intros H1 H2 Hs1 Hs2 Hc.
  destruct (E_depends_on_content out net1 net2 L1 L2 H1 H2 Hs1 Hs2 Hc)
    as (t & o & HE1 & HE2).
  unfold main. rewrite HE1, HE2.
  destruct o as [a|v|e]; cbn [result truthy]; cbv iota beta;
    try destruct (truthy v); cbn [fst snd]; rewrite !printed_app;
    repeat split; reflexivity.
Qed.

Lemma C7_deterministic_witness :
  snd (result (E ascii_stdout (serve 200 verbatim_stream)))
  = snd (result (E ascii_stdout (serve 206 verbatim_stream)))
  /\ printed stdout (fst (main ascii_stdout (serve 200 verbatim_stream)))
     = printed stdout (fst (main ascii_stdout (serve 206 verbatim_stream)))
  /\ printed stderr (fst (main ascii_stdout (serve 200 verbatim_stream)))
     = printed stderr (fst (main ascii_stdout (serve 206 verbatim_stream)))
  /\ snd (main ascii_stdout (serve 200 verbatim_stream))
     = snd (main ascii_stdout (serve 206 verbatim_stream)).
Proof.
  apply (C7_deterministic ascii_stdout (serve 200 verbatim_stream)
           (serve 206 verbatim_stream)
           (served 200 verbatim_stream) (served 206 verbatim_stream));
    reflexivity.
Defined.

(** ** The request *)

Lemma ends_requests (out : terminal) (net : Requests.network) (l : list event) (v : value) :
  ends out net l v -> requests_made l = [(J, request_headers, 30)].
Proof. destruct 1; reflexivity. Qed.

Lemma requests_made_app (l1 l2 : list event) :
  requests_made (l1 ++ l2) = requests_made l1 ++ requests_made l2.
Proof. apply flat_map_app. Qed.

(** [raise_for_status] raises exactly for the status codes 400 to 599. *)
Lemma raise_for_status_spec (L : Requests.Response) :
  (400 <= Requests.status_code L < 600 ->
   exists e, Requests.raise_for_status L = Some e)
  /\ (~ 400 <= Requests.status_code L < 600 ->
      Requests.raise_for_status L = None).
Proof.
  unfold Requests.raise_for_status. split; intros H.
  - destruct ((400 <=? _) && (_ <? 500)) eqn:H4; [eauto|].
    destruct ((500 <=? _) && (_ <? 600)) eqn:H5; [eauto|].
    apply andb_false_iff in H4, H5. exfalso.
    destruct H4 as [H4|H4], H5 as [H5|H5];
      first [apply Z.leb_gt in H4 | apply Z.ltb_ge in H4];
      first [apply Z.leb_gt in H5 | apply Z.ltb_ge in H5]; lia.
  - destruct ((400 <=? _) && (_ <? 500)) eqn:H4.
    { apply andb_true_iff in H4. destruct H4 as [Ha Hb].
      apply Z.leb_le in Ha. apply Z.ltb_lt in Hb. lia. }
    destruct ((500 <=? _) && (_ <? 600)) eqn:H5; [|reflexivity].
    apply andb_true_iff in H5. destruct H5 as [Ha Hb].
    apply Z.leb_le in Ha. apply Z.ltb_lt in Hb. lia.
Qed.

(** C8, as stated, fails on the code: 300 is not a success status, and the
    status check lets it pass; the run over a 300 response with the body
    [key_stream] is not classified as a network error (nothing is printed
    on standard error), it extracts the credential and exits with
    status 0. *)
Lemma C8_status_300_passes :
  Requests.raise_for_status (served 300 key_stream) = None
  /\ snd (result (E utf8_stdout (serve 300 key_stream))) = inr (Some (lit "abc123XYZ"))
  /\ printed stderr (fst (main utf8_stdout (serve 300 key_stream))) = []
  /\ snd (main utf8_stdout (serve 300 key_stream)) = 0.
Proof. repeat split; vm_compute; reflexivity. Qed.

(** C8, amended: every run calls [requests.get] exactly once, for the
    fixed address, with the header Range: bytes=82926761-83010957 (the
    offset 82926761 through offset + length, with length 84196) and the
    timeout 30; the requests the library sends on its own inside that
    call, when it follows redirects, are not counted.  An exception of
    [requests] raised by the call (a transport error) and a response whose
    status code is from 400 to 599 are classified as network errors: the
    run prints the network-error diagnostic and returns [None] without a
    second call.  Any other status code (1xx, 2xx or 3xx) passes
    [raise_for_status], and the body goes on to decompression. *)
Theorem C8_single_ranged_get (out : terminal) (net : Requests.network) :
  requests_made (fst (main out net))
  = [(J, [(lit "Range", lit "bytes=82926761-83010957")], 30)]
  /\ (D = 82926761 /\ K = 84196
      /\ lit "bytes=82926761-83010957"
         = lit "bytes=" ++ str_of_int D ++ lit "-" ++ str_of_int (D + K))
  /\ (forall e, net J request_headers 30 = inl e ->
                matches except_RequestException e = true ->
                result (E out net)
                = (request_log
                   ++ [Print stderr (lit "network error: " ++ exc_str e)],
                   inr None))
  /\ (forall L, answered net L ->
                400 <= Requests.status_code L < 600 ->
                exists e,
                  Requests.raise_for_status L = Some e
                  /\ result (E out net)
                     = (request_log
                        ++ [RaiseForStatus L;
                            Print stderr (lit "network error: " ++ exc_str e)],
                        inr None))
  /\ (forall L, answered net L ->
                ~ 400 <= Requests.status_code L < 600 ->
                In (Decompress (Requests.content L)) (fst (E out net))).
Proof.
  split; [|split; [|split; [|split]]].
  - destruct (E_run out net) as (l & v & HE & Hends).
    apply ends_requests in Hends. apply main_of_E in HE.
    destruct HE as [_ Hm]. rewrite Hm.
    destruct (truthy v); cbn [fst]; [exact Hends|].
    rewrite requests_made_app, Hends. reflexivity.
  - repeat split.
  - intros e H Hm. apply main_of_E. rewrite (E_get_raises out net e H).
    unfold diagnostic. rewrite Hm. reflexivity.
  - intros L H Hsc.
    destruct (proj1 (raise_for_status_spec L) Hsc) as [e He].
    exists e. split; [exact He|].
    apply main_of_E. now apply E_status_raises.
  - intros L H Hsc.
    pose proof (proj2 (raise_for_status_spec L) Hsc) as Hs.
    destruct (E_run out net) as (l & v & HE & Hends). rewrite HE. cbn [fst].
    assert (Hin : forall V t, In (Decompress (Requests.content L))
                                 (scan_log L V ++ t)).
    { intros V t. unfold scan_log, fetch_log. rewrite <- !app_assoc.
      apply in_or_app. right. right. right. now left. }
    unfold answered in H.
    destruct Hends as [e He|L' e H' Hs'|L' e H' Hs' Hd|L' V (H' & _) _
                       |L' V N (H' & _) _ _ _|L' V N P e (H' & _) _ _ _ _ _
                       |L' V N P Q (H' & _) _ _ _ _ _ _
                       |L' V N P Q (H' & _) _ _ _ _ _ _];
      try (unfold answered in H'; rewrite H in H'; injection H' as <-);
      try apply Hin; try congruence.
    unfold fetch_log. rewrite <- app_assoc.
    apply in_or_app. right. right. right. now left.
Qed.

Lemma C8_single_ranged_get_witness :
  result (E utf8_stdout (serve 404 key_stream))
  = (request_log
     ++ [RaiseForStatus (served 404 key_stream);
         Print stderr
           (lit "network error: " ++ lit "404 Client Error:  for url: " ++ J)],
     inr None)
  /\ In (Decompress key_stream) (fst (E utf8_stdout (serve 300 key_stream))).
Proof.
  split.
  - destruct (proj1 (proj2 (proj2 (proj2
                (C8_single_ranged_get utf8_stdout (serve 404 key_stream)))))
                (served 404 key_stream) eq_refl) as (e & He & Hr).
    + change (400 <= 404 < 600). lia.
    + injection He as <-. exact Hr.
  - refine (proj2 (proj2 (proj2 (proj2
              (C8_single_ranged_get utf8_stdout (serve 300 key_stream)))))
              (served 300 key_stream) eq_refl _).
    change (~ 400 <= 300 < 600). lia.
Defined.

(** ** The recursion bound of the inflate model is never reached *)

Section Fuel.

Import Zlib.

Lemma byte_bits_length (b : byte) : List.length (byte_bits b) = 8%nat.
Proof. destruct b; reflexivity. Qed.

Lemma read_bit_left (r r' : reader) (b : Z) :
  read_bit r = inr (b, r') ->
  S (bits_left r') = bits_left r /\ 0 <= b.
Proof.
  unfold read_bit, bits_left. destruct r as [[|c cs] rs]; simpl.
  - destruct rs as [|x xs]; [discriminate|].
    pose proof (byte_bits_length x) as Hl.
    destruct (byte_bits x) as [|c cs]; [discriminate|].
    intros H. injection H as <- <-. simpl in *. split; [lia|].
    destruct c; simpl; lia.
  - intros H. injection H as <- <-. simpl. split; [lia|].
    destruct c; simpl; lia.
Qed.

Lemma read_bit_fails (r : reader) (f : failure) :
  read_bit r = inl f -> f = Truncated.
Proof.
  unfold read_bit. destruct (cur r); [|discriminate].
  destruct (rest r) as [|x xs]; [congruence|].
  destruct (byte_bits x); [congruence | discriminate].
Qed.

Lemma after_bind {T U : Type} (m : R T) (k : T -> R U) (r : reader) :
  after r (m r) ->
  (forall a r1, m r = inr (a, r1) -> (bits_left r1 <= bits_left r)%nat ->
                after r1 (k a r1)) ->
  after r (bind m k r).
Proof.
  unfold bind, after. destruct (m r) as [f|[a r1]]; [trivial|].
  intros Hle Hk. specialize (Hk a r1 eq_refl Hle).
  destruct (k a r1) as [f|[u r2]]; [assumption | lia].
Qed.

Lemma after_ret {T : Type} (a : T) (r : reader) : after r (ret a r).
Proof. simpl. lia. Qed.

Lemma after_fail_invalid {T : Type} (msg : string) (r : reader) :
  after r (@fail T (Invalid msg) r).
Proof. simpl. discriminate. Qed.

Lemma after_read_bit (r : reader) : after r (read_bit r).
Proof.
  unfold after. destruct (read_bit r) as [f|[b r']] eqn:H.
  - apply read_bit_fails in H. subst. discriminate.
  - apply read_bit_left in H. lia.
Qed.

Lemma read_bits_spec (n : nat) (r : reader) :
  match read_bits n r with
  | inl f => f <> OutOfFuel
  | inr (v, r') => (bits_left r' + n = bits_left r)%nat /\ 0 <= v
  end.
Proof.
  revert r. induction n as [|n IH]; intros r; cbn [read_bits].
  - unfold ret. split; lia.
  - unfold bind. destruct (read_bit r) as [f|[b r1]] eqn:Hb.
    + apply read_bit_fails in Hb. subst. discriminate.
    + apply read_bit_left in Hb. specialize (IH r1). cbv beta.
      destruct (read_bits n r1) as [f|[v r2]]; [assumption|].
      unfold ret. split; lia.
Qed.

Lemma after_read_bits (n : nat) (r : reader) : after r (read_bits n r).
Proof.
  pose proof (read_bits_spec n r) as H. unfold after.
  destruct (read_bits n r) as [f|[v r']]; [assumption | lia].
Qed.

Lemma after_align (r : reader) : after r (align r).
Proof. unfold after, align, bits_left. simpl. lia. Qed.

Lemma after_read_bytes (n : nat) (r : reader) : after r (read_bytes n r).
Proof.
  unfold after, read_bytes.
  destruct (Z.of_nat n <=? len (rest r)); [|discriminate].
  unfold bits_left. simpl. rewrite length_skipn. lia.
Qed.

(** A symbol is decoded from at least one bit. *)
Lemma decode_from_spec (symbols counts : list Z) (code first index : Z)
      (r : reader) :
  match decode_from symbols counts code first index r with
  | inl f => f <> OutOfFuel
  | inr (Some _, r') => (bits_left r' < bits_left r)%nat
  | inr (None, r') => (bits_left r' <= bits_left r)%nat
  end.
Proof.
  revert code first index r.
  induction counts as [|c counts IH]; intros code first index r; simpl.
  - lia.
  - unfold bind. destruct (read_bit r) as [f|[b r1]] eqn:Hb.
    + apply read_bit_fails in Hb. subst. discriminate.
    + apply read_bit_left in Hb. cbv beta zeta.
      destruct (code + b - c <? first).
      * simpl. destruct (nth_error _ _); lia.
      * destruct (forallb (Z.eqb 0) counts); [simpl; lia|].
        specialize (IH (2 * (code + b)) (2 * (first + c)) (index + c) r1).
        destruct (decode_from _ _ _ _ _ r1) as [f|[[s|] r2]];
          [assumption | lia | lia].
Qed.

Lemma after_decode (h : huffman) (r : reader) : after r (decode h r).
Proof.
  pose proof (decode_from_spec (symbol h) (count h) 0 0 0 r) as H.
  unfold after, decode. destruct (decode_from _ _ _ _ _ r) as [f|[[s|] r']];
    [assumption | lia | lia].
Qed.

Lemma decode_some (h : huffman) (r r' : reader) (s : Z) :
  decode h r = inr (Some s, r') -> (bits_left r' < bits_left r)%nat.
Proof.
  intros H. pose proof (decode_from_spec (symbol h) (count h) 0 0 0 r) as Hs.
  unfold decode in H. now rewrite H in Hs.
Qed.


Ltac bind_step H Hle :=
  apply after_bind; [| intros ? ? H Hle ].

Ltac bind_named a r H Hle :=
  apply after_bind; [| intros a r H Hle ].

Lemma after_inflate_codes (fuel : nat) (lencode distcode : huffman)
      (out : bytes) (r : reader) :
  (bits_left r < fuel)%nat ->
  after r (inflate_codes fuel lencode distcode out r).
Proof.
  revert out r. induction fuel as [|fuel IH]; intros out r Hr; [lia|].
  cbn [inflate_codes].
  bind_named o r1 Hd Hle; [apply after_decode|].
  destruct o as [sym|]; [|apply after_fail_invalid].
  apply decode_some in Hd.
  destruct (sym <? 256); [apply IH; lia|].
  destruct (sym =? 256); [apply after_ret|].
  destruct (285 <? sym); [apply after_fail_invalid|].
  bind_step He Hle1; [apply after_read_bits|].
  bind_named d r3 Hd2 Hle2; [apply after_decode|].
  destruct d as [dsym|]; [|apply after_fail_invalid].
  destruct (29 <? dsym); [apply after_fail_invalid|].
  bind_step He2 Hle3; [apply after_read_bits|].
  cbv zeta.
  destruct (len out <? _); [apply after_fail_invalid|].
  apply IH. lia.
Qed.

Lemma after_inflate_stored (out : bytes) (r : reader) :
  after r (inflate_stored out r).
Proof.
  unfold inflate_stored.
  bind_step H0 Hle0; [apply after_align|].
  bind_step H1 Hle1; [apply after_read_bits|].
  bind_step H2 Hle2; [apply after_read_bits|].
  destruct (negb _); [apply after_fail_invalid|].
  bind_step H3 Hle3; [apply after_read_bytes|].
  apply after_ret.
Qed.

Lemma after_read_values (n k : nat) (r : reader) :
  after r (read_values n k r).
Proof.
  revert r. induction n as [|n IH]; intros r; cbn [read_values].
  - apply after_ret.
  - bind_step H0 Hle0; [apply after_read_bits|].
    bind_step H1 Hle1; [apply IH|].
    apply after_ret.
Qed.

Lemma read_bits_nonneg (n : nat) (r r' : reader) (v : Z) :
  read_bits n r = inr (v, r') -> 0 <= v.
Proof.
  intros H. pose proof (read_bits_spec n r) as Hs. rewrite H in Hs. lia.
Qed.

Lemma len_repeat {T : Type} (x : T) (n : nat) : len (repeat x n) = Z.of_nat n.
Proof. unfold len. now rewrite repeat_length. Qed.

Lemma len_cons {T : Type} (x : T) (l : list T) : len (x :: l) = len l + 1.
Proof. unfold len. simpl List.length. lia. Qed.

Lemma after_read_codelens (fuel : nat) (h : huffman) (total : Z)
      (acc : list Z) (r : reader) :
  (Z.to_nat (total - len acc) <= fuel)%nat ->
  after r (read_codelens fuel h total acc r).
Proof.
  revert acc r. induction fuel as [|fuel IH]; intros acc r Hf.
  - cbn [read_codelens].
    destruct (total <=? len acc) eqn:Ht; [apply after_ret|].
    apply Z.leb_gt in Ht. lia.
  - cbn [read_codelens].
    destruct (total <=? len acc) eqn:Ht; [apply after_ret|].
    apply Z.leb_gt in Ht.
    bind_named o r1 Hd Hle; [apply after_decode|].
    cbv zeta.
    destruct (_ <? 16).
    { apply IH. rewrite len_cons. lia. }
    apply after_bind.
    + destruct (_ =? 16).
      * bind_step Hc Hlc; [apply after_read_bits|].
        destruct acc; [apply after_fail_invalid | apply after_ret].
      * destruct (_ =? 17).
        -- bind_step Hc Hlc; [apply after_read_bits|]. apply after_ret.
        -- bind_step Hc Hlc; [apply after_read_bits|]. apply after_ret.
    + intros [l copy] r2 Hlc Hle2.
      assert (Hcopy : 3 <= copy).
      { destruct (_ =? 16).
        - unfold bind in Hlc.
          destruct (read_bits 2 r1) as [f|[c r3]] eqn:Hc; [discriminate|].
          apply read_bits_nonneg in Hc.
          destruct acc; [discriminate|]. unfold ret in Hlc.
          assert (copy = 3 + c) by congruence. lia.
        - destruct (_ =? 17); unfold bind in Hlc.
          + destruct (read_bits 3 r1) as [f|[c r3]] eqn:Hc; [discriminate|].
            apply read_bits_nonneg in Hc. unfold ret in Hlc.
            assert (copy = 3 + c) by congruence. lia.
          + destruct (read_bits 7 r1) as [f|[c r3]] eqn:Hc; [discriminate|].
            apply read_bits_nonneg in Hc. unfold ret in Hlc.
            assert (copy = 11 + c) by congruence. lia. }
      destruct (total <? len acc + copy); [apply after_fail_invalid|].
      apply IH. rewrite len_app, len_repeat. lia.
Qed.

Lemma after_read_tables (r : reader) : after r (read_tables r).
Proof.
  unfold read_tables.
  bind_step H0 Hle0; [apply after_read_bits|].
  bind_step H1 Hle1; [apply after_read_bits|].
  bind_step H2 Hle2; [apply after_read_bits|].
  cbv zeta.
  destruct (_ || _); [apply after_fail_invalid|].
  bind_step H3 Hle3; [apply after_read_values|].
  destruct (negb _); [apply after_fail_invalid|].
  bind_step H4 Hle4.
  { apply after_read_codelens. unfold len. simpl List.length. 
    rewrite Z.sub_0_r. lia. }
  destruct (_ =? 0); [apply after_fail_invalid|].
  destruct (negb _); [apply after_fail_invalid|].
  destruct (negb _); [apply after_fail_invalid|].
  apply after_ret.
Qed.

Lemma after_inflate_blocks (fuel cfuel : nat) (out : bytes) (r : reader) :
  (bits_left r < fuel)%nat -> (bits_left r < cfuel)%nat ->
  after r (inflate_blocks fuel cfuel out r).
Proof.
  revert out r. induction fuel as [|fuel IH]; intros out r Hr Hc; [lia|].
  cbn [inflate_blocks].
  apply after_bind; [apply after_read_bits|]. intros last r1 H1 _.
  pose proof (read_bits_spec 1 r) as Hs. rewrite H1 in Hs.
  bind_step H2 Hle2; [apply after_read_bits|].
  apply after_bind.
  - destruct (_ =? 0); [apply after_inflate_stored|].
    destruct (_ =? 1); [apply after_inflate_codes; lia|].
    destruct (_ =? 2); [|apply after_fail_invalid].
    bind_step H3 Hle3; [apply after_read_tables|].
    apply after_inflate_codes. lia.
  - intros out' r3 H3 Hle3.
    destruct (last =? 1); [apply after_ret|].
    apply IH; lia.
Qed.

Lemma after_read_header (r : reader) : after r (read_header r).
Proof.
  unfold read_header.
  bind_step H0 Hle0; [apply after_read_bits|].
  bind_step H1 Hle1; [apply after_read_bits|].
  destruct (negb _); [apply after_fail_invalid|].
  destruct (negb _); [apply after_fail_invalid|].
  destruct (15 <? _); [apply after_fail_invalid|].
  destruct (Z.testbit _ _); [|apply after_ret].
  bind_step H2 Hle2; [apply after_read_bytes|].
  simpl. discriminate.
Qed.

Lemma after_inflate_zlib (fuel : nat) (r : reader) :
  (bits_left r < fuel)%nat -> after r (inflate_zlib fuel r).
Proof.
  intros Hr. unfold inflate_zlib.
  bind_step H0 Hle0; [apply after_read_header|].
  bind_step H1 Hle1; [apply after_inflate_blocks; lia|].
  bind_step H2 Hle2; [apply after_align|].
  bind_step H3 Hle3; [apply after_read_bytes|].
  destruct (_ =? _); [apply after_ret | apply after_fail_invalid].
Qed.

Lemma bits_left_start (data : bytes) :
  (bits_left (mk_reader [] data) < inflate_fuel data)%nat.
Proof. unfold bits_left, inflate_fuel. simpl. lia. Qed.

(** The bound [inflate_fuel] is enough: neither [zlib.decompress] nor its
    raw variant ever stops for lack of fuel. *)
Lemma inflate_fuel_enough (data : bytes) :
  run (inflate_zlib (inflate_fuel data)) data <> inl OutOfFuel
  /\ run (inflate_blocks (inflate_fuel data) (inflate_fuel data) []) data
     <> inl OutOfFuel.
Proof.
  unfold run. split.
  - pose proof (after_inflate_zlib _ _ (bits_left_start data)) as H.
    destruct (inflate_zlib _ _) as [f|[a r]]; [|discriminate].
    intros Heq. injection Heq as ->. now apply H.
  - pose proof (after_inflate_blocks _ _ [] _ (bits_left_start data)
                  (bits_left_start data)) as H.
    destruct (inflate_blocks _ _ _ _) as [f|[a r]]; [|discriminate].
    intros Heq. injection Heq as ->. now apply H.
Qed.

End Fuel.

(** ** Decompression *)

Lemma read_byte (b : byte) (r : bytes) :
  Zlib.read_bits 8 (Zlib.mk_reader [] (b :: r))
  = inr (byte_val b, Zlib.mk_reader [] r).
Proof. destruct b; reflexivity. Qed.

Lemma read_header_zlib (data : bytes) (u : unit) (r : Zlib.reader) :
  Zlib.read_header (Zlib.mk_reader [] data) = inr (u, r) ->
  zlib_header data.
Proof.
  unfold Zlib.read_header, Zlib.bind.
  destruct data as [|cmf [|flg rest]].
  - discriminate.
  - rewrite read_byte. discriminate.
  - rewrite !read_byte.
    destruct ((byte_val cmf * 256 + byte_val flg) mod 31 =? 0) eqn:H31;
      [|discriminate].
    destruct (Z.land (byte_val cmf) 15 =? 8) eqn:H8; [|discriminate].
    intros _. exists cmf, flg, rest.
    apply Z.eqb_eq in H31, H8. now repeat split.
Qed.

(** [zlib.decompress] accepts only bytes that begin with a zlib header. *)
Lemma decompress_header (data V : bytes) :
  Zlib.decompress data = inr V -> zlib_header data.
Proof.
  unfold Zlib.decompress, Zlib.run, Zlib.inflate_zlib.
  unfold Zlib.bind at 1.
  destruct (Zlib.read_header (Zlib.mk_reader [] data)) as [f|[u r]] eqn:Hh.
  - discriminate.
  - intros _. now apply read_header_zlib in Hh.
Qed.

(** C1, as stated, fails on the code, which reads a zlib stream and not a
    raw deflate stream.  The two bytes 03 00 are a valid raw deflate stream
    (of the empty output), and the run over them reports a decompression
    error; the bytes of [zlib_of_nothing] are not a valid raw deflate
    stream, and the run over them decompresses them and goes on to the
    marker scan. *)
Lemma C1_raw_deflate_rejected :
  Zlib.decompress_raw raw_deflate_stream = inr []
  /\ result (E utf8_stdout (serve 206 raw_deflate_stream))
     = (fetch_log (served 206 raw_deflate_stream)
        ++ [Print stderr
              (lit "decompression error: Error -3 while decompressing data: incorrect header check")],
        inr None)
  /\ Zlib.decompress_raw zlib_of_nothing
     = inl (mk_exc zlib_error
              (lit "Error -3 while decompressing data: invalid stored block lengths"))
  /\ result (E utf8_stdout (serve 206 zlib_of_nothing))
     = (scan_log (served 206 zlib_of_nothing) []
        ++ [Decode marker;
            Print stderr (lit "couldnt find string " ++ marker_text)],
        inr None).
Proof. repeat split; vm_compute; reflexivity. Qed.

(** C1, amended: [E] decompresses the fetched bytes with [zlib.decompress],
    that is as a zlib stream (RFC 1950: header, deflate blocks, Adler-32),
    not as a raw deflate stream.  For every fetched byte sequence that
    [zlib.decompress] accepts (which begins with a zlib header), the run
    goes on to the marker scan of the decompressed bytes; for every fetched
    byte sequence on which it raises [zlib.error], the run prints the
    decompression-error diagnostic on standard error and returns [None]:
    no credential is produced. *)
Theorem C1_zlib_decompression (out : terminal) (net : Requests.network)
        (L : Requests.Response) :
  answered net L ->
  Requests.raise_for_status L = None ->
  match Zlib.decompress (Requests.content L) with
  | inr V =>
    zlib_header (Requests.content L)
    /\ exists l v, E out net = (scan_log L V ++ l, Return v)
  | inl e =>
    result (E out net)
    = (fetch_log L
       ++ [Print stderr (lit "decompression error: " ++ exc_str e)],
       inr None)
  end.
Proof.
  intros H Hs.
  destruct (Zlib.decompress (Requests.content L)) as [e|V] eqn:Hd.
  - apply main_of_E. now apply E_decompress_raises.
  - split; [now apply decompress_header in Hd|].
    destruct (Z.eq_dec (find V marker 0) (-1)) as [Hf|Hf].
    { eexists _, _. exact (E_marker_missing out net L V H Hs Hd Hf). }
    destruct (Z.eq_dec (find V [dquote] (find V marker 0 + len marker)) (-1))
      as [Hq|Hq].
    { eexists _, _. exact (E_no_quote out net L V H Hs Hd _ eq_refl Hf Hq). }
    destruct (decode (slice V (find V marker 0 + len marker)
                        (find V [dquote] (find V marker 0 + len marker))))
      as [e|Q] eqn:Hu.
    + eexists _, _.
      exact (E_decode_raises out net L V H Hs Hd _ _ e eq_refl Hf eq_refl Hq Hu).
    + destruct (can_write out (lit "api key: " ++ Q)) eqn:Hw; eexists _, _.
      * exact (E_returns_key out net L V H Hs Hd _ _ Q eq_refl Hf eq_refl Hq
                 Hu Hw).
      * exact (E_print_raises out net L V H Hs Hd _ _ Q eq_refl Hf eq_refl Hq
                 Hu Hw).
Qed.

Lemma C1_zlib_decompression_witness :
  (zlib_header key_stream
   /\ exists l v,
       E utf8_stdout (serve 206 key_stream)
       = (scan_log (served 206 key_stream) key_buffer ++ l, Return v))
  /\ result (E utf8_stdout (serve 206 raw_deflate_stream))
     = (fetch_log (served 206 raw_deflate_stream)
        ++ [Print stderr
              (lit "decompression error: "
               ++ lit "Error -3 while decompressing data: incorrect header check")],
        inr None).
Proof.
  split.
  - pose proof (C1_zlib_decompression utf8_stdout (serve 206 key_stream)
                  (served 206 key_stream) eq_refl eq_refl) as H.
    replace (Zlib.decompress (Requests.content (served 206 key_stream)))
      with (@inr exc bytes key_buffer) in H by (vm_compute; reflexivity).
    exact H.
  - pose proof (C1_zlib_decompression utf8_stdout (serve 206 raw_deflate_stream)
                  (served 206 raw_deflate_stream) eq_refl eq_refl) as H.
    replace (Zlib.decompress
               (Requests.content (served 206 raw_deflate_stream)))
      with (@inl exc bytes
              (mk_exc zlib_error
                 (lit "Error -3 while decompressing data: incorrect header check")))
      in H by (vm_compute; reflexivity).
    exact H.
Defined.

(** * Further properties of [E] and [main] *)

(** ** From the result of a search back to the shape of the buffer *)

Lemma find_at_absent_inv (sub s : bytes) (i : Z) :
  0 <= i -> find_at s sub i = -1 -> ~ contains sub s.
Proof.
  intros Hi H Hc. apply contains_first in Hc. destruct Hc as [k Hk].
  rewrite (find_at_first sub s k i Hk) in H. lia.
Qed.

Lemma find_absent_inv (sub s : bytes) :
  find s sub 0 = -1 -> ~ contains sub s.
Proof.
  intros H [k Hk]. pose proof (occurs_at_bound sub s k Hk) as Hb.
  change s with ([] ++ s) in H. change 0 with (len (@nil byte)) in H.
  rewrite find_split in H.
  destruct (len s <? len sub) eqn:Hl; [apply Z.ltb_lt in Hl; lia|].
  apply (find_at_absent_inv sub s 0); [lia | exact H | now exists k].
Qed.

Lemma find_found_inv (sub s : bytes) (N : Z) :
  find s sub 0 = N -> N <> -1 ->
  exists pre post,
    s = pre ++ sub ++ post /\ N = len pre
    /\ first_at sub s (List.length pre).
Proof.
  intros H HN.
  change s with ([] ++ s) in H. change 0 with (len (@nil byte)) in H.
  rewrite find_split in H. destruct (len s <? len sub); [congruence|].
  destruct (find_at_lower sub s (len (@nil byte))) as [Hl|Hl]; [congruence|].
  change (len (@nil byte)) with 0 in *.
  assert (Hf : first_at sub s (Z.to_nat N)).
  { apply (find_at_sound sub s (Z.to_nat N) 0); lia. }
  destruct (proj1 Hf) as (pre & post & Hs & Hlen).
  exists pre, post. rewrite Hlen. repeat split; try assumption.
  - unfold len. lia.
  - exact (proj1 Hf).
  - exact (proj2 Hf).
Qed.

Lemma first_at_single_inv (b : byte) (s : bytes) (k : nat) :
  first_at [b] s k ->
  exists val post, s = val ++ b :: post /\ List.length val = k /\ ~ In b val.
Proof.
  intros [(val & post & Hs & Hl) Hmin]. exists val, post.
  repeat split; try assumption.
  intros Hin. apply in_split in Hin. destruct Hin as (v1 & v2 & Hv).
  apply (Hmin (List.length v1)).
  - rewrite <- Hl, Hv, length_app. simpl. lia.
  - exists v1, (v2 ++ [b] ++ post). split; [|reflexivity].
    rewrite Hs, Hv, <- app_assoc. reflexivity.
Qed.

(** The search for the closing quote, from the end of [head]. *)
Lemma find_quote_inv (head tail : bytes) (P : Z) :
  find (head ++ tail) [dquote] (len head) = P ->
  (P = -1 /\ ~ In dquote tail)
  \/ (exists val post,
         tail = val ++ dquote :: post /\ ~ In dquote val
         /\ P = len head + len val).
Proof.
  rewrite find_split. intros H.
  destruct (len tail <? len [dquote]) eqn:Hl.
  - left. split; [congruence|]. apply Z.ltb_lt in Hl.
    destruct tail; [tauto|]. rewrite len_cons in Hl.
    pose proof (len_nonneg tail). change (len [dquote]) with 1 in Hl. lia.
  - pose proof (len_nonneg head) as Hh.
    destruct (find_at_lower [dquote] tail (len head)) as [Hm|Hm].
    + left. split; [congruence|]. intros Hin.
      apply (find_at_absent_inv [dquote] tail (len head) Hh Hm).
      apply in_split in Hin. destruct Hin as (v1 & v2 & ->).
      now exists (List.length v1), v1, v2.
    + right.
      assert (Hf : first_at [dquote] tail (Z.to_nat (P - len head))).
      { apply (find_at_sound [dquote] tail _ (len head) Hh). lia. }
      apply first_at_single_inv in Hf.
      destruct Hf as (val & post & Ht & Hlen & Hno).
      exists val, post. repeat split; try assumption. unfold len in *. lia.
Qed.

(** The two searches of [E], read back: where the marker is, and what
    follows it. *)
Lemma scan_shape (V : bytes) (N P : Z) :
  find V marker 0 = N -> N <> -1 ->
  find V [dquote] (N + len marker) = P ->
  exists pre tail,
    V = pre ++ marker ++ tail
    /\ first_at marker V (List.length pre)
    /\ N = len pre
    /\ ((P = -1 /\ ~ In dquote tail)
        \/ exists val post,
            tail = val ++ dquote :: post /\ ~ In dquote val
            /\ P <> -1
            /\ slice V (N + len marker) P = val).
Proof.
  intros HN Hfound HP.
  destruct (find_found_inv marker V N HN Hfound)
    as (pre & tail & HV & HNpre & Hfirst).
  exists pre, tail. repeat split; try assumption; try apply Hfirst.
  rewrite HNpre, <- len_app in HP. rewrite HV, app_assoc in HP.
  destruct (find_quote_inv (pre ++ marker) tail P HP)
    as [[HP1 Hno]|(val & post & Ht & Hno & HP2)].
  - now left.
  - right. exists val, post. split; [exact Ht|]. split; [exact Hno|]. split.
    + pose proof (len_nonneg (pre ++ marker)). pose proof (len_nonneg val).
      lia.
    + rewrite HV, Ht, HNpre, HP2, len_app, app_assoc, <- len_app.
      apply slice_middle.
Qed.

Ltac pick_stderr H :=
  unfold scan_log, fetch_log, request_log in H;
  repeat rewrite <- app_assoc in H; cbn [app In] in H;
  repeat match type of H with
         | _ \/ _ => destruct H as [H|H]; [try discriminate H|]
         | False => destruct H
         end.

Ltac other_line H :=
  exfalso; injection H as H;
  try (unfold diagnostic in H; destruct (matches _ _));
  cbn in H; discriminate H.

Lemma ends_answered (net : Requests.network) (L L' : Requests.Response) :
  answered net L -> answered net L' -> L = L'.
Proof. unfold answered. congruence. Qed.

(** A credential is returned only from a buffer that holds the marker and
    a closed value after it. *)
Lemma credential_shape (out : terminal) (net : Requests.network) (Q : str) :
  snd (result (E out net)) = inr (Some Q) ->
  exists L V pre val post,
    decompressed net L V
    /\ V = pre ++ marker ++ val ++ dquote :: post
    /\ first_at marker V (List.length pre)
    /\ ~ In dquote val
    /\ decode val = inr Q.
Proof.
  destruct (E_run out net) as (l & v & HE & Hends). rewrite HE. cbn [result snd].
  intros Hv. injection Hv as ->.
  inversion Hends as [| | | | | | |L V N P Q' Hdec HN Hfound HP HPfound Hu Hw];
    subst.
  destruct (scan_shape V _ _ eq_refl Hfound eq_refl)
    as (pre & tail & HV & Hfirst & HNpre
        & [[HP1 _]|(val & post & Ht & Hno & _ & Hsl)]);
    [congruence|].
  exists L, V, pre, val, post. rewrite Hsl in Hu. subst tail.
  split; [exact Hdec|]. split; [exact HV|]. split; [exact Hfirst|].
  split; [exact Hno | exact Hu].
Qed.

(** ** What the decoder does with ASCII *)

Lemma lor_big_l (x y : Z) : 128 <= x -> 0 <= y -> 128 <= Z.lor x y.
Proof.
  intros Hx Hy.
  assert (Hn : 0 <= Z.lor x y) by (apply Z.lor_nonneg; lia).
  destruct (Z.lt_ge_cases (Z.lor x y) 128) as [Hlt|Hge]; [|exact Hge].
  exfalso.
  assert (Hl : Z.log2 (Z.lor x y) < 7).
  { destruct (Z.eq_dec (Z.lor x y) 0) as [H0|H0].
    - rewrite H0. simpl. lia.
    - apply Z.log2_lt_pow2; [lia | simpl; lia]. }
  rewrite Z.log2_lor in Hl by lia.
  assert (7 <= Z.log2 x).
  { change 7 with (Z.log2 128). apply Z.log2_le_mono. exact Hx. }
  lia.
Qed.

Lemma lor_big_r (x y : Z) : 0 <= x -> 128 <= y -> 128 <= Z.lor x y.
Proof. intros Hx Hy. rewrite Z.lor_comm. now apply lor_big_l. Qed.

Lemma shiftl_big (x n : Z) : 1 <= x -> 7 <= n -> 128 <= Z.shiftl x n.
Proof.
  intros Hx Hn. rewrite Z.shiftl_mul_pow2 by lia.
  assert (2 ^ 7 <= 2 ^ n) by (apply Z.pow_le_mono_r; lia).
  change (2 ^ 7) with 128 in *. nia.
Qed.

Lemma cont_bits_nonneg (c : Z) : 0 <= cont_bits c.
Proof. unfold cont_bits. apply Z.land_nonneg. right. lia. Qed.

(** The payload bits of the lead and second bytes, for every byte value. *)
Lemma lead2_bits (b : byte) :
  (194 <=? byte_val b) && (byte_val b <? 224) = true ->
  (2 <=? Z.land (byte_val b) 31) = true.
Proof. destruct b; vm_compute; auto. Qed.

Lemma lead3_bits (b : byte) :
  (224 <=? byte_val b) && (byte_val b <? 240) = true ->
  (byte_val b =? 224) || (1 <=? Z.land (byte_val b) 15) = true.
Proof. destruct b; vm_compute; auto. Qed.

Lemma lead4_bits (b : byte) :
  (240 <=? byte_val b) && (byte_val b <? 245) = true ->
  (byte_val b =? 240) || (1 <=? Z.land (byte_val b) 7) = true.
Proof. destruct b; vm_compute; auto. Qed.

Lemma second_bits (b : byte) :
  (144 <=? byte_val b) && (byte_val b <=? 191) = true ->
  (1 <=? cont_bits (byte_val b)) = true.
Proof. destruct b; vm_compute; auto. Qed.

Lemma second_bits_3 (b : byte) :
  (160 <=? byte_val b) && (byte_val b <=? 191) = true ->
  (32 <=? cont_bits (byte_val b)) = true.
Proof. destruct b; vm_compute; auto. Qed.

Lemma byte_val_range (b : byte) : 0 <= byte_val b < 256.
Proof.
  unfold byte_val. pose proof (Byte.to_N_bounded b). lia.
Qed.

Lemma byte_val_inj (a b : byte) : byte_val a = byte_val b -> a = b.
Proof.
  unfold byte_val. intros H. apply N2Z.inj in H.
  assert (Hs : Some a = Some b)
    by (rewrite <- (Byte.of_to_N a), <- (Byte.of_to_N b); now rewrite H).
  congruence.
Qed.

Lemma emit_inr (c : Z) (r : decode_error + str) (Q : str) :
  emit c r = inr Q -> exists Q1, r = inr Q1 /\ Q = c :: Q1.
Proof.
  destruct r as [e|Q1]; simpl; [discriminate|].
  intros H. injection H as <-. now exists Q1.
Qed.

(** A character below 128 in the decoded text is a byte of the input: the
    multi-byte forms only give characters from 128 on. *)
Lemma utf8_decode_ascii_origin (n : nat) :
  forall (s : bytes) (pos : Z) (Q : str) (c : Z),
    (List.length s <= n)%nat ->
    utf8_decode s pos = inr Q -> In c Q -> c < 128 ->
    exists b, In b s /\ byte_val b = c.
Proof.
  induction n as [|n IH]; intros s pos Q c Hlen Hd Hin Hc.
  { destruct s; [|simpl in Hlen; lia]. simpl in Hd. injection Hd as <-.
    destruct Hin. }
  destruct s as [|b0 s1]; [simpl in Hd; injection Hd as <-; destruct Hin|].
  cbn [utf8_decode] in Hd. cbv zeta in Hd.
  unfold unexpected_end, invalid_cont in Hd.
  assert (Hrec : forall s' pos' Q',
             (List.length s' <= n)%nat ->
             utf8_decode s' pos' = inr Q' -> In c Q' ->
             (forall b, In b s' -> In b (b0 :: s1)) ->
             exists b, In b (b0 :: s1) /\ byte_val b = c).
  { intros s' pos' Q' Hl' Hd' Hin' Hsub.
    destruct (IH s' pos' Q' c Hl' Hd' Hin' Hc) as (b & Hb & Hv).
    exists b. split; [now apply Hsub | exact Hv]. }
  simpl in Hlen.
  destruct (byte_val b0 <? 128) eqn:E1.
  { apply emit_inr in Hd. destruct Hd as (Q1 & Hd & ->).
    destruct Hin as [Hin|Hin].
    - exists b0. split; [now left | exact Hin].
    - eapply (Hrec s1 _ Q1); [lia | exact Hd | exact Hin |].
      intros b Hb. now right. }
  destruct (byte_val b0 <? 194) eqn:E2; [discriminate|].
  apply Z.ltb_ge in E1, E2.
  destruct (byte_val b0 <? 224) eqn:E3.
  { destruct s1 as [|b1 s2]; [discriminate|].
    destruct (negb (is_cont (byte_val b1))); [discriminate|].
    apply emit_inr in Hd. destruct Hd as (Q1 & Hd & ->).
    destruct Hin as [Hin|Hin].
    - exfalso.
      assert (Hb : (2 <=? Z.land (byte_val b0) 31) = true).
      { apply lead2_bits. rewrite E3, andb_true_r. apply Z.leb_le. lia. }
      apply Z.leb_le in Hb.
      pose proof (cont_bits_nonneg (byte_val b1)).
      assert (128 <= c); [|lia]. rewrite <- Hin.
      apply lor_big_l; [|assumption].
      rewrite Z.shiftl_mul_pow2 by lia. change (2 ^ 6) with 64. lia.
    - simpl in Hlen. eapply (Hrec s2 _ Q1); [lia | exact Hd | exact Hin |].
      intros b Hb. right. now right. }
  apply Z.ltb_ge in E3.
  destruct (byte_val b0 <? 240) eqn:E4.
  { destruct s1 as [|b1 s2]; [discriminate|].
    destruct (bad_second _ _ _ _ _) eqn:Hbad; [discriminate|].
    destruct s2 as [|b2 s3]; [discriminate|].
    destruct (negb (is_cont (byte_val b2))); [discriminate|].
    apply emit_inr in Hd. destruct Hd as (Q1 & Hd & ->).
    destruct Hin as [Hin|Hin].
    - exfalso.
      pose proof (cont_bits_nonneg (byte_val b1)).
      pose proof (cont_bits_nonneg (byte_val b2)).
      assert (Hlead : (byte_val b0 =? 224)
                      || (1 <=? Z.land (byte_val b0) 15) = true).
      { apply lead3_bits. rewrite E4, andb_true_r. apply Z.leb_le. lia. }
      unfold bad_second in Hbad. apply orb_false_iff in Hbad.
      destruct Hbad as [Hcont Hbound]. apply negb_false_iff in Hcont.
      unfold is_cont in Hcont. apply andb_true_iff in Hcont.
      destruct Hcont as [Hlo Hhi]. apply Z.leb_le in Hlo, Hhi.
      assert (128 <= c); [|lia]. rewrite <- Hin.
      apply orb_true_iff in Hlead. destruct Hlead as [H224|Hbits].
      + rewrite H224 in Hbound.
        destruct (byte_val b1 <? 160) eqn:E160; [discriminate|].
        apply Z.ltb_ge in E160.
        assert (Hs : (32 <=? cont_bits (byte_val b1)) = true).
        { apply second_bits_3. apply andb_true_iff.
          split; apply Z.leb_le; lia. }
        apply Z.leb_le in Hs.
        apply lor_big_r.
        * apply Z.shiftl_nonneg, Z.land_nonneg. right. lia.
        * apply lor_big_l; [|assumption].
          rewrite Z.shiftl_mul_pow2 by lia. change (2 ^ 6) with 64. lia.
      + apply Z.leb_le in Hbits. apply lor_big_l.
        * apply shiftl_big; lia.
        * apply Z.lor_nonneg. split; [|assumption].
          apply Z.shiftl_nonneg. assumption.
    - simpl in Hlen. eapply (Hrec s3 _ Q1); [lia | exact Hd | exact Hin |].
      intros b Hb. right. right. now right. }
  apply Z.ltb_ge in E4.
  destruct (byte_val b0 <? 245) eqn:E5; [|discriminate].
  destruct s1 as [|b1 s2]; [discriminate|].
  destruct (bad_second _ _ _ _ _) eqn:Hbad; [discriminate|].
  destruct s2 as [|b2 s3]; [discriminate|].
  destruct (negb (is_cont (byte_val b2))); [discriminate|].
  destruct s3 as [|b3 s4]; [discriminate|].
  destruct (negb (is_cont (byte_val b3))); [discriminate|].
  apply emit_inr in Hd. destruct Hd as (Q1 & Hd & ->).
  destruct Hin as [Hin|Hin].
  - exfalso.
    pose proof (cont_bits_nonneg (byte_val b1)).
    pose proof (cont_bits_nonneg (byte_val b2)).
    pose proof (cont_bits_nonneg (byte_val b3)).
    assert (Hlead : (byte_val b0 =? 240)
                    || (1 <=? Z.land (byte_val b0) 7) = true).
    { apply lead4_bits. rewrite E5, andb_true_r. apply Z.leb_le. lia. }
    unfold bad_second in Hbad. apply orb_false_iff in Hbad.
    destruct Hbad as [Hcont Hbound]. apply negb_false_iff in Hcont.
    unfold is_cont in Hcont. apply andb_true_iff in Hcont.
    destruct Hcont as [Hlo Hhi]. apply Z.leb_le in Hlo, Hhi.
    assert (Hrest : 0 <= Z.lor (Z.shiftl (cont_bits (byte_val b2)) 6)
                           (cont_bits (byte_val b3))).
    { apply Z.lor_nonneg. split; [|assumption].
      apply Z.shiftl_nonneg. assumption. }
    assert (128 <= c); [|lia]. rewrite <- Hin.
    apply orb_true_iff in Hlead. destruct Hlead as [H240|Hbits].
    + rewrite H240 in Hbound.
      destruct (byte_val b1 <? 144) eqn:E144; [discriminate|].
      apply Z.ltb_ge in E144.
      assert (Hs : (1 <=? cont_bits (byte_val b1)) = true).
      { apply second_bits. apply andb_true_iff.
        split; apply Z.leb_le; lia. }
      apply Z.leb_le in Hs.
      apply lor_big_r.
      * apply Z.shiftl_nonneg, Z.land_nonneg. right. lia.
      * apply lor_big_l; [|assumption]. apply shiftl_big; lia.
    + apply Z.leb_le in Hbits. apply lor_big_l.
      * apply shiftl_big; lia.
      * apply Z.lor_nonneg. split; [|assumption].
        apply Z.shiftl_nonneg. assumption.
  - simpl in Hlen. eapply (Hrec s4 _ Q1); [lia | exact Hd | exact Hin |].
    intros b Hb. right. right. right. now right.
Qed.

Lemma decode_ascii_origin (s : bytes) (Q : str) (c : Z) :
  decode s = inr Q -> In c Q -> c < 128 ->
  exists b, In b s /\ byte_val b = c.
Proof.
  unfold decode. destruct (utf8_decode s 0) as [e|Q1] eqn:Hd; [discriminate|].
  intros H. injection H as <-.
  now apply (utf8_decode_ascii_origin (List.length s) s 0 Q1 c).
Qed.


Lemma raise_for_status_range (L : Requests.Response) (e : exc) :
  Requests.raise_for_status L = Some e ->
  400 <= Requests.status_code L < 600.
Proof.
  intros H.
  destruct (Z_le_dec 400 (Requests.status_code L)) as [Hlo|Hlo];
    destruct (Z_lt_dec (Requests.status_code L) 600) as [Hhi|Hhi];
    try (split; assumption);
    rewrite (proj2 (raise_for_status_spec L)) in H by lia; discriminate.
Qed.

Lemma decompressed_unique (net : Requests.network)
      (L L' : Requests.Response) (V V' : bytes) :
  decompressed net L V -> decompressed net L' V' -> L = L' /\ V = V'.
Proof.
  intros (H & _ & Hd) (H' & _ & Hd').
  pose proof (ends_answered net L L' H H') as <-.
  split; [reflexivity | congruence].
Qed.

(** ** Extras *)

(** X2: [E] returns a credential only if the response passed the status
    check and its body decompressed to a buffer made of some bytes, the
    marker at its first occurrence, a value without double quote, a double
    quote and the rest; the credential is the decoding of that value. *)
Theorem X2_credential_sound (out : terminal) (net : Requests.network) (Q : str) :
  snd (result (E out net)) = inr (Some Q) ->
  exists L V pre val post,
    decompressed net L V
    /\ V = pre ++ marker ++ val ++ dquote :: post
    /\ first_at marker V (List.length pre)
    /\ ~ In dquote val
    /\ decode val = inr Q.
Proof. apply credential_shape. Qed.

Lemma X2_credential_sound_witness :
  exists L V pre val post,
    decompressed (serve 206 key_stream) L V
    /\ V = pre ++ marker ++ val ++ dquote :: post
    /\ first_at marker V (List.length pre)
    /\ ~ In dquote val
    /\ decode val = inr (lit "abc123XYZ").
Proof.
  apply (X2_credential_sound utf8_stdout (serve 206 key_stream) (lit "abc123XYZ")).
  vm_compute. reflexivity.
Defined.

(** X3: a credential that [E] returns never holds a double quote. *)
Theorem X3_no_quote_in_credential (out : terminal) (net : Requests.network) (Q : str) :
  snd (result (E out net)) = inr (Some Q) -> ~ In dquote_char Q.
Proof.
  intros H Hin.
  destruct (credential_shape out net Q H)
    as (L & V & pre & val & post & _ & _ & _ & Hno & Hu).
  destruct (decode_ascii_origin val Q dquote_char Hu Hin) as (b & Hb & Hv);
    [unfold dquote_char; lia|].
  apply Hno. replace dquote with b; [exact Hb|].
  apply byte_val_inj. rewrite Hv. reflexivity.
Qed.

Lemma X3_no_quote_in_credential_witness :
  snd (result (E utf8_stdout (serve 206 verbatim_stream)))
  = inr (Some [32; 107; 233; 121; 92; 110; 32])
  /\ ~ In dquote_char [32; 107; 233; 121; 92; 110; 32].
Proof.
  assert (H : snd (result (E utf8_stdout (serve 206 verbatim_stream)))
              = inr (Some [32; 107; 233; 121; 92; 110; 32]))
    by (vm_compute; reflexivity).
  split; [exact H|].
  exact (X3_no_quote_in_credential utf8_stdout (serve 206 verbatim_stream) _ H).
Defined.



Ltac in_log := vm_compute; repeat (try (left; reflexivity); right).

(** X5: the marker-not-found diagnostic is printed only when the body was
    decompressed and the decompressed buffer does not hold the marker. *)
Theorem X5_not_found_cause (out : terminal) (net : Requests.network) :
  In (Print stderr (lit "couldnt find string " ++ marker_text)) (fst (E out net)) ->
  exists L V, decompressed net L V /\ ~ contains marker V.
Proof.
  destruct (E_run out net) as (l & v & HE & Hends). rewrite HE. cbn [fst].
  intros H.
  destruct Hends as [e He|L e Ha Hs|L e Ha Hs Hd|L V Hdec Hf
                     |L V N Hdec Hf Hfound Hq|L V N P e Hdec Hf Hfound Hq Hp Hu
                     |L V N P Q Hdec Hf Hfound Hq Hp Hu Hw
                     |L V N P Q Hdec Hf Hfound Hq Hp Hu Hw];
    pick_stderr H; try (other_line H).
  exists L, V. split; [exact Hdec | now apply find_absent_inv].
Qed.

Lemma X5_not_found_cause_witness :
  exists L V,
    decompressed (serve 206 plain_stream) L V /\ ~ contains marker V.
Proof.
  apply (X5_not_found_cause utf8_stdout (serve 206 plain_stream)). in_log.
Defined.

(** X6: the no-closing-quote diagnostic is printed only when the
    decompressed buffer holds the marker and no double quote after the end
    of its first occurrence. *)
Theorem X6_no_closing_quote_cause (out : terminal) (net : Requests.network) :
  In (Print stderr (lit "no closing quote")) (fst (E out net)) ->
  exists L V pre post,
    decompressed net L V
    /\ V = pre ++ marker ++ post
    /\ first_at marker V (List.length pre)
    /\ ~ In dquote post.
Proof.
  destruct (E_run out net) as (l & v & HE & Hends). rewrite HE. cbn [fst].
  intros H.
  destruct Hends as [e He|L e Ha Hs|L e Ha Hs Hd|L V Hdec Hf
                     |L V N Hdec Hf Hfound Hq|L V N P e Hdec Hf Hfound Hq Hp Hu
                     |L V N P Q Hdec Hf Hfound Hq Hp Hu Hw
                     |L V N P Q Hdec Hf Hfound Hq Hp Hu Hw];
    pick_stderr H; try (other_line H).
  destruct (scan_shape V N _ Hf Hfound eq_refl)
    as (pre & tail & HV & Hfirst & _
        & [[_ Hno]|(val & post & _ & _ & HP & _)]); [|congruence].
  exists L, V, pre, tail.
  split; [exact Hdec|]. split; [exact HV|]. split; [exact Hfirst | exact Hno].
Qed.

Lemma X6_no_closing_quote_cause_witness :
  exists L V pre post,
    decompressed (serve 206 open_stream) L V
    /\ V = pre ++ marker ++ post
    /\ first_at marker V (List.length pre)
    /\ ~ In dquote post.
Proof.
  apply (X6_no_closing_quote_cause utf8_stdout (serve 206 open_stream)). in_log.
Defined.


Lemma print_inj (f : stream) (a b : str) : Print f a = Print f b -> a = b.
Proof. intros H. now injection H. Qed.

Ltac same_line H m :=
  apply print_inj in H;
  try (unfold diagnostic in H; destruct (matches _ _) eqn:?;
       [|exfalso; cbn in H; discriminate H]);
  apply app_inv_head in H.

(** X7: the network-error diagnostic is printed only for a failure of the
    fetch: the request raised an exception of [requests], or the response
    had a status code from 400 to 599; the text after the prefix is the
    message of that exception.  Nothing was decompressed or scanned, and
    [E] returns [None]. *)
Theorem X7_network_error_cause (out : terminal) (net : Requests.network) (m : str) :
  In (Print stderr (lit "network error: " ++ m)) (fst (E out net)) ->
  ((exists e, net J request_headers 30 = inl e
              /\ matches except_RequestException e = true
              /\ exc_str e = m)
   \/ (exists L e, answered net L
                   /\ 400 <= Requests.status_code L < 600
                   /\ Requests.raise_for_status L = Some e
                   /\ exc_str e = m))
  /\ steps (fst (E out net)) = [Fetch]
  /\ snd (result (E out net)) = inr None.
Proof.
  destruct (E_run out net) as (l & v & HE & Hends). rewrite HE.
  cbn [fst snd result]. intros H.
  destruct Hends as [e He|L e Ha Hs|L e Ha Hs Hd|L V Hdec Hf
                     |L V N Hdec Hf Hfound Hq|L V N P e Hdec Hf Hfound Hq Hp Hu
                     |L V N P Q Hdec Hf Hfound Hq Hp Hu Hw
                     |L V N P Q Hdec Hf Hfound Hq Hp Hu Hw];
    pick_stderr H; try (other_line H).
  - same_line H m. split; [|split; reflexivity].
    left. exists e. repeat split; assumption.
  - same_line H m. split; [|split; reflexivity].
    right. exists L, e. split; [exact Ha|]. split.
    + now apply raise_for_status_range in Hs.
    + split; assumption.
Qed.

Lemma X7_network_error_cause_witness :
  ((exists e, serve 404 key_stream J request_headers 30 = inl e
              /\ matches except_RequestException e = true
              /\ exc_str e = lit "404 Client Error:  for url: " ++ J)
   \/ (exists L e, answered (serve 404 key_stream) L
                   /\ 400 <= Requests.status_code L < 600
                   /\ Requests.raise_for_status L = Some e
                   /\ exc_str e = lit "404 Client Error:  for url: " ++ J))
  /\ steps (fst (E utf8_stdout (serve 404 key_stream))) = [Fetch]
  /\ snd (result (E utf8_stdout (serve 404 key_stream))) = inr None.
Proof.
  apply (X7_network_error_cause utf8_stdout (serve 404 key_stream)
           (lit "404 Client Error:  for url: " ++ J)).
  in_log.
Defined.

(** X8: an exception raised by the request that is not an exception of
    [requests] is taken by the last [except] clause: its message is
    printed after the word error, no network error is reported, nothing is
    decompressed, and the process exits with status 1. *)
Theorem X8_other_exception_from_request (out : terminal) (net : Requests.network) (e : exc) :
  net J request_headers 30 = inl e ->
  matches except_RequestException e = false ->
  main out net
  = (request_log ++ [Print stderr (lit "error: " ++ exc_str e); failed_line],
     1).
Proof.
  intros He Hm. pose proof (E_get_raises out net e He) as HE.
  unfold diagnostic in HE. rewrite Hm in HE.
  destruct (main_of_E out net _ _ HE) as [_ Hmain]. rewrite Hmain.
  cbn [truthy]. now rewrite <- app_assoc.
Qed.

Lemma X8_other_exception_from_request_witness :
  main utf8_stdout (fun _ _ _ => inl (mk_exc OtherException (lit "boom")))
  = (request_log ++ [Print stderr (lit "error: " ++ lit "boom"); failed_line],
     1).
Proof.
  apply (X8_other_exception_from_request utf8_stdout
           (fun _ _ _ => inl (mk_exc OtherException (lit "boom")))
           (mk_exc OtherException (lit "boom")));
    reflexivity.
Defined.

(** X9: the progress lines report the true sizes.  A run that decompressed
    the body of [L] to [V] prints on standard output the two announcement
    lines, the number of bytes of the body, the number of bytes of [V],
    and then the key line if and only if a credential is returned. *)
Theorem X9_progress_lines (out : terminal) (net : Requests.network) (L : Requests.Response)
        (V : bytes) :
  decompressed net L V ->
  printed stdout (fst (E out net))
  = [lit "getting curseforge api key from " ++ J ++ lit "...";
     lit "requesting bytes 82926761-83010957...";
     lit "downloaded " ++ str_of_int (len (Requests.content L))
     ++ lit " bytes (compressed)";
     lit "decompressed to " ++ str_of_int (len V) ++ lit " bytes"]
    ++ match snd (result (E out net)) with
       | inr (Some Q) => [lit "api key: " ++ Q]
       | _ => []
       end.
Proof.
  intros Hdec. destruct (E_run out net) as (l & v & HE & Hends). rewrite HE.
  cbn [fst snd result].
  pose proof Hdec as (Ha & Hs & Hd).
  destruct Hends as [e He|L' e Ha' Hs'|L' e Ha' Hs' Hd'|L' V' Hdec' Hf
                     |L' V' N Hdec' Hf Hfound Hq
                     |L' V' N P e Hdec' Hf Hfound Hq Hp Hu
                     |L' V' N P Q Hdec' Hf Hfound Hq Hp Hu Hw
                     |L' V' N P Q Hdec' Hf Hfound Hq Hp Hu Hw].
  - unfold answered in Ha. congruence.
  - pose proof (ends_answered net L L' Ha Ha'). congruence.
  - pose proof (ends_answered net L L' Ha Ha'). congruence.
  - destruct (decompressed_unique net L L' V V' Hdec Hdec') as [<- <-].
    reflexivity.
  - destruct (decompressed_unique net L L' V V' Hdec Hdec') as [<- <-].
    reflexivity.
  - destruct (decompressed_unique net L L' V V' Hdec Hdec') as [<- <-].
    reflexivity.
  - destruct (decompressed_unique net L L' V V' Hdec Hdec') as [<- <-].
    reflexivity.
  - destruct (decompressed_unique net L L' V V' Hdec Hdec') as [<- <-].
    reflexivity.
Qed.

Lemma X9_progress_lines_witness :
  printed stdout (fst (E utf8_stdout (serve 206 open_stream)))
  = [lit "getting curseforge api key from " ++ J ++ lit "...";
     lit "requesting bytes 82926761-83010957...";
     lit "downloaded "
     ++ str_of_int (len (Requests.content (served 206 open_stream)))
     ++ lit " bytes (compressed)";
     lit "decompressed to " ++ str_of_int (len open_buffer) ++ lit " bytes"]
    ++ match snd (result (E utf8_stdout (serve 206 open_stream))) with
       | inr (Some Q) => [lit "api key: " ++ Q]
       | _ => []
       end.
Proof.
  apply (X9_progress_lines utf8_stdout (serve 206 open_stream) (served 206 open_stream)
           open_buffer).
  served_ok.
Defined.

(** X10: the decompression-error diagnostic is printed only when the
    response passed the status check and [zlib.decompress] raised on its
    body; the text after the prefix is the message of the [zlib.error].
    The marker scan was not attempted, and [E] returns [None]. *)
Theorem X10_decompression_error_cause (out : terminal) (net : Requests.network) (m : str) :
  In (Print stderr (lit "decompression error: " ++ m)) (fst (E out net)) ->
  (exists L e, answered net L
               /\ Requests.raise_for_status L = None
               /\ Zlib.decompress (Requests.content L) = inl e
               /\ exc_str e = m)
  /\ steps (fst (E out net)) = [Fetch; Decompression]
  /\ snd (result (E out net)) = inr None.
Proof.
  destruct (E_run out net) as (l & v & HE & Hends). rewrite HE.
  cbn [fst snd result]. intros H.
  destruct Hends as [e He|L e Ha Hs|L e Ha Hs Hd|L V Hdec Hf
                     |L V N Hdec Hf Hfound Hq|L V N P e Hdec Hf Hfound Hq Hp Hu
                     |L V N P Q Hdec Hf Hfound Hq Hp Hu Hw
                     |L V N P Q Hdec Hf Hfound Hq Hp Hu Hw];
    pick_stderr H; try (other_line H).
  apply print_inj in H. apply app_inv_head in H.
  split; [|split; reflexivity].
  exists L, e. repeat split; assumption.
Qed.

Lemma X10_decompression_error_cause_witness :
  (exists L e, answered (serve 206 raw_deflate_stream) L
               /\ Requests.raise_for_status L = None
               /\ Zlib.decompress (Requests.content L) = inl e
               /\ exc_str e
                  = lit "Error -3 while decompressing data: incorrect header check")
  /\ steps (fst (E utf8_stdout (serve 206 raw_deflate_stream))) = [Fetch; Decompression]
  /\ snd (result (E utf8_stdout (serve 206 raw_deflate_stream))) = inr None.
Proof.
  apply (X10_decompression_error_cause utf8_stdout (serve 206 raw_deflate_stream)
           (lit "Error -3 while decompressing data: incorrect header check")).
  in_log.
Defined.

(** X11: the diagnostic of the last [except] clause (the word error and a
    message) is printed in three cases only: the request raised an
    exception that is not one of [requests], or the value found after the
    marker is not valid UTF-8, or that value decodes to a key whose line
    standard output cannot encode; the message is that of the exception. *)
Theorem X11_unclassified_error_cause (out : terminal) (net : Requests.network) (m : str) :
  In (Print stderr (lit "error: " ++ m)) (fst (E out net)) ->
  (exists e, net J request_headers 30 = inl e
             /\ matches except_RequestException e = false
             /\ exc_str e = m)
  \/ (exists L V pre val post e,
         decompressed net L V
         /\ V = pre ++ marker ++ val ++ dquote :: post
         /\ first_at marker V (List.length pre)
         /\ ~ In dquote val
         /\ decode val = inl e
         /\ exc_str e = m)
  \/ (exists L V pre val post Q,
         decompressed net L V
         /\ V = pre ++ marker ++ val ++ dquote :: post
         /\ first_at marker V (List.length pre)
         /\ ~ In dquote val
         /\ decode val = inr Q
         /\ can_write out (lit "api key: " ++ Q) = false
         /\ encode_error out (lit "api key: " ++ Q) = m).
Proof.
  destruct (E_run out net) as (l & v & HE & Hends). rewrite HE.
  cbn [fst]. intros H.
  destruct Hends as [e He|L e Ha Hs|L e Ha Hs Hd|L V Hdec Hf
                     |L V N Hdec Hf Hfound Hq|L V N P e Hdec Hf Hfound Hq Hp Hu
                     |L V N P Q Hdec Hf Hfound Hq Hp Hu Hw
                     |L V N P Q Hdec Hf Hfound Hq Hp Hu Hw];
    pick_stderr H.
  - apply print_inj in H. unfold diagnostic in H.
    destruct (matches except_RequestException e) eqn:Hm;
      [exfalso; cbn in H; discriminate H|].
    apply app_inv_head in H. left. exists e. repeat split; assumption.
  - apply print_inj in H. apply app_inv_head in H. right. left.
    destruct (scan_shape V N P Hf Hfound Hq)
      as (pre & tail & HV & Hfirst & _
          & [[HP _]|(val & post & Ht & Hno & _ & Hsl)]); [congruence|].
    rewrite Hsl in Hu. subst tail. exists L, V, pre, val, post, e.
    split; [exact Hdec|]. split; [exact HV|]. split; [exact Hfirst|].
    split; [exact Hno|]. split; assumption.
  - apply print_inj in H. apply app_inv_head in H. right. right.
    destruct (scan_shape V N P Hf Hfound Hq)
      as (pre & tail & HV & Hfirst & _
          & [[HP _]|(val & post & Ht & Hno & _ & Hsl)]); [congruence|].
    rewrite Hsl in Hu. subst tail. exists L, V, pre, val, post, Q.
    split; [exact Hdec|]. split; [exact HV|]. split; [exact Hfirst|].
    split; [exact Hno|]. split; [exact Hu|]. split; assumption.
Qed.

Lemma X11_unclassified_error_cause_witness :
  (exists e, serve 206 verbatim_stream J request_headers 30 = inl e
             /\ matches except_RequestException e = false
             /\ exc_str e
                = lit "'ascii' codec can't encode character '\xe9' in position 11: ordinal not in range(128)")
  \/ (exists L V pre val post e,
         decompressed (serve 206 verbatim_stream) L V
         /\ V = pre ++ marker ++ val ++ dquote :: post
         /\ first_at marker V (List.length pre)
         /\ ~ In dquote val
         /\ decode val = inl e
         /\ exc_str e
            = lit "'ascii' codec can't encode character '\xe9' in position 11: ordinal not in range(128)")
  \/ (exists L V pre val post Q,
         decompressed (serve 206 verbatim_stream) L V
         /\ V = pre ++ marker ++ val ++ dquote :: post
         /\ first_at marker V (List.length pre)
         /\ ~ In dquote val
         /\ decode val = inr Q
         /\ can_write ascii_stdout (lit "api key: " ++ Q) = false
         /\ encode_error ascii_stdout (lit "api key: " ++ Q)
            = lit "'ascii' codec can't encode character '\xe9' in position 11: ordinal not in range(128)").
Proof.
  apply (X11_unclassified_error_cause ascii_stdout (serve 206 verbatim_stream)
           (lit "'ascii' codec can't encode character '\xe9' in position 11: ordinal not in range(128)")).
  in_log.
Defined.
